(** * CanAI: event-triggered clip recording

    A shallow embedding of the trigger state machine ([canai/canai.py]),
    the pre-event buffer ([canai/stream/video_stream_handler.py]), the clip
    recorder ([canai/project_utils/video_recorder.py]) and the detector
    wrapper ([canai/detectors/ai_detector.py]), together with the older
    copies kept at the top level of the repository ([stream/],
    [project_utils/]) and [canai/stream/object_detection_app.py].

    Numbers.  Python [int] and finite [float] values are embedded in [Q];
    comparisons between them are exact in Python and in [Q] alike.  A
    difference of two clock readings is exact here, where Python rounds it
    to the nearest double, and so is the quotient [1 / fps].  The products
    the code forms ([pre_event_seconds * fps] in [main],
    [fps * post_event_seconds] in the older recorder) are modelled on whole
    numbers only, where Python is exact as well. *)

From Stdlib Require Import QArith Qround ZArith List Bool Lia Lqa String.
From stdpp Require Import base option list sorting strings gmap.
Import ListNotations.

Close Scope Q_scope.
Local Open Scope string_scope.
Local Open Scope list_scope.

(** ** Python values, exceptions *)

(** An ndarray image: its [shape] tuple and its flattened contents. *)
Record Frame := mkFrame { shape : list nat; pixels : list Z }.

(** The values a configuration dictionary loaded from YAML can hold, as far
    as the orchestrator distinguishes them: numbers, and everything that
    is not a number. *)
Inductive pyval :=
| PNum (q : Q)
| PStr (s : string)
| PNone.

Inductive exn :=
| ValueError (msg : string)
| KeyError (key : string)
| TypeError
| ZeroDivisionError
| OSError
| CvError.

(** Computations that may raise. *)
Definition ebind {A B} (m : exn + A) (k : A -> exn + B) : exn + B :=
  match m with
  | inl e => inl e
  | inr a => k a
  end.

Notation "'let*' x := m 'in' k" := (ebind m (fun x => k))
  (at level 10, x pattern, m at level 100, k at level 200).

Definition Qlt_bool (x y : Q) : bool :=
  match (x ?= y)%Q with
  | Lt => true
  | _ => false
  end.

(** [d[k]] and [d.get(k, default)]. *)
Definition getitem (d : gmap string pyval) (k : string) : exn + pyval :=
  match d !! k with
  | Some v => inr v
  | None => inl (KeyError k)
  end.

Definition dict_get (d : gmap string pyval) (k : string) (dflt : pyval) : pyval :=
  match d !! k with
  | Some v => v
  | None => dflt
  end.

(** Ordering comparisons against a number raise [TypeError] on a string or
    on [None]. *)
Definition as_num (v : pyval) : exn + Q :=
  match v with
  | PNum q => inr q
  | _ => inl TypeError
  end.

Definition py_le (a b : pyval) : exn + bool :=
  let* x := as_num a in
  let* y := as_num b in
  inr (Qle_bool x y).

Definition py_lt (a b : pyval) : exn + bool :=
  let* x := as_num a in
  let* y := as_num b in
  inr (Qlt_bool x y).

(** ** Configuration validation: [CanAI._validate_config] *)

Definition required_keys : list string :=
  ["fps"; "pre_event_seconds"; "post_event_seconds"].

Fixpoint check_required (keys : list string) (cfg : gmap string pyval) : exn + unit :=
  match keys with
  | [] => inr tt
  | key :: rest =>
      match cfg !! key with
      | None => inl (ValueError ("Missing required configuration key: " ++ key))
      | Some _ => check_required rest cfg
      end
  end.

(** [1 <= fps <= 60] evaluates [fps] once and the second comparison only
    when the first one holds. *)
Definition fps_in_range (fps : pyval) : exn + bool :=
  let* lo := py_le (PNum 1) fps in
  if lo then py_le fps (PNum 60) else inr false.

Definition validate_config (cfg : gmap string pyval) : exn + unit :=
  let* _ := check_required required_keys cfg in
  let* fps := getitem cfg "fps" in
  let* ok := fps_in_range fps in
  if negb ok then inl (ValueError "FPS must be between 1 and 60") else
  let* pre := getitem cfg "pre_event_seconds" in
  let* neg_pre := py_lt pre (PNum 0) in
  if neg_pre then inl (ValueError "Pre-event seconds cannot be negative") else
  let* post := getitem cfg "post_event_seconds" in
  let* neg_post := py_lt post (PNum 0) in
  if neg_post then inl (ValueError "Post-event seconds cannot be negative") else
  inr tt.

(** ** The orchestrator: [CanAI] *)

Record CanAI := mkCanAI {
  config : gmap string pyval;
  recorded_detection : bool;
  frame_counter : Z;
  start_time : Q;
  last_detection_time : Q;
  recording_in_progress : bool
}.

Definition set_recorded_detection (b : bool) (self : CanAI) : CanAI :=
  mkCanAI (config self) b (frame_counter self) (start_time self)
          (last_detection_time self) (recording_in_progress self).

Definition set_frame_counter (n : Z) (self : CanAI) : CanAI :=
  mkCanAI (config self) (recorded_detection self) n (start_time self)
          (last_detection_time self) (recording_in_progress self).

Definition set_last_detection_time (t : Q) (self : CanAI) : CanAI :=
  mkCanAI (config self) (recorded_detection self) (frame_counter self)
          (start_time self) t (recording_in_progress self).

Definition set_recording_in_progress (b : bool) (self : CanAI) : CanAI :=
  mkCanAI (config self) (recorded_detection self) (frame_counter self)
          (start_time self) (last_detection_time self) b.

(** [CanAI.__init__]: the fields are set, then the configuration is
    validated; an exception leaves no object behind. [now] is the reading
    of [time.time()]. *)
Definition init (cfg : gmap string pyval) (now : Q) : exn + CanAI :=
  let self := mkCanAI cfg false 0 now 0%Q false in
  let* _ := validate_config (config self) in
  inr self.

(** [(confidence >= th).any()] and [(confidence < th).all()] on the
    flattened array. *)
Definition np_any_ge (confidence : list Q) (th : pyval) : exn + bool :=
  let* t := as_num th in
  inr (existsb (fun c => Qle_bool t c) confidence).

Definition np_all_lt (confidence : list Q) (th : pyval) : exn + bool :=
  let* t := as_num th in
  inr (forallb (fun c => Qlt_bool c t) confidence).

(** A recorder thread is started with the list of pre-event frames as its
    argument. *)
Definition Task : Type := list Frame.

(** [CanAI._handle_detection].  [current_time] is the reading of
    [time.time()], [confidence] the array returned by the detector and
    [queue] the content of [stream_handler.frame_buffer.queue] at the time
    of the call.  The result is the new object state and the threads
    started by the call. *)
Definition handle_detection (self : CanAI) (current_time : Q)
    (confidence : list Q) (queue : list Frame) : exn + (CanAI * list Task) :=
  let high_threshold := dict_get (config self) "detection_threshold" (PNum (7 # 10)) in
  let low_threshold := dict_get (config self) "low_detection_threshold" (PNum (3 # 10)) in
  let* above := np_any_ge confidence high_threshold in
  if above && negb (recording_in_progress self) then
    let* pre := getitem (config self) "pre_event_seconds" in
    let* elapsed := py_lt pre (PNum (current_time - last_detection_time self)) in
    if elapsed then
      let pre_event_frames := queue in
      let self := set_recording_in_progress true self in
      let self := set_last_detection_time current_time self in
      inr (self, [pre_event_frames])
    else
      let* armed := np_any_ge confidence low_threshold in
      if armed then
        inr (set_last_detection_time current_time self, [])
      else
        let* quiet := np_all_lt confidence low_threshold in
        if quiet then inr (set_recorded_detection false self, [])
        else inr (self, [])
  else inr (self, []).

(** [CanAI._record_clip] returning: the recorder call is over and the flag
    is cleared. *)
Definition record_clip_finished (self : CanAI) : CanAI :=
  set_recording_in_progress false self.

(** The orchestrator together with the recorder threads it has started
    and that have not finished yet. *)
Record System := mkSystem {
  app : CanAI;
  running : list Task
}.

Inductive event :=
| ProcessFrame (current_time : Q) (confidence : list Q) (queue : list Frame)
| RecorderDone.

(** One iteration of the main loop of [CanAI.run] on a frame, or the end of
    the oldest recorder thread.  With no thread running there is nothing
    that could finish. *)
Definition step (sys : System) (ev : event) : exn + System :=
  match ev with
  | ProcessFrame t confidence queue =>
      let* (self, spawned) := handle_detection (app sys) t confidence queue in
      inr (mkSystem (set_frame_counter (frame_counter self + 1) self)
                    (running sys ++ spawned))
  | RecorderDone =>
      match running sys with
      | [] => inr sys
      | _ :: rest => inr (mkSystem (record_clip_finished (app sys)) rest)
      end
  end.

Fixpoint run_events (sys : System) (evs : list event) : exn + System :=
  match evs with
  | [] => inr sys
  | ev :: rest =>
      let* sys' := step sys ev in
      run_events sys' rest
  end.

(** The clock readings of the frames that started a recorder thread in a
    run, oldest first. *)
Fixpoint trigger_times (sys : System) (evs : list event) : list Q :=
  match evs with
  | [] => []
  | ev :: rest =>
      match step sys ev with
      | inl _ => []
      | inr sys' =>
          match ev with
          | ProcessFrame t confidence queue =>
              match handle_detection (app sys) t confidence queue with
              | inr (_, _ :: _) => [t]
              | _ => []
              end
          | RecorderDone => []
          end ++ trigger_times sys' rest
      end
  end.

(** ** The older orchestrator: [ObjectDetectionApp.run] *)

(** One iteration of the loop body on a frame for which the detector
    answered [detected]. *)
Definition oda_iteration (recorded_detection : bool) (detected : bool)
    (queue : list Frame) : bool * list Task :=
  if detected && negb recorded_detection then (true, [queue])
  else if negb detected then (false, [])
  else (recorded_detection, []).

(** ** [queue.Queue] *)

(** [Queue.full()]: a queue whose [maxsize] is zero or negative is never
    full. *)
Definition queue_full (maxsize : Z) (q : list Frame) : bool :=
  (0 <? maxsize)%Z && (maxsize <=? Z.of_nat (length q))%Z.

(** [Queue.get()] waits for an item: with no other producer a call on an
    empty queue never returns ([None]). *)
Definition queue_get (q : list Frame) : option (Frame * list Frame) :=
  match q with
  | [] => None
  | x :: rest => Some (x, rest)
  end.

(** [Queue.put(x)] waits for a free slot. *)
Definition queue_put (maxsize : Z) (q : list Frame) (x : Frame) : option (list Frame) :=
  if queue_full maxsize q then None else Some (q ++ [x]).

(** ** The pre-event buffer: [VideoStreamHandler] *)

(** [clock] counts the readings of [time.time()] the capture thread has
    made so far. *)
Record VideoStreamHandler := mkHandler {
  maxsize : Z;
  frame_buffer : list Frame;
  frame_timestamps : list Q;
  current_frame : option Frame;
  clock : nat
}.

Definition new_handler (max_pre_frames : Z) : VideoStreamHandler :=
  mkHandler max_pre_frames [] [] None 0.

Definition get_current_frame (self : VideoStreamHandler) : option Frame :=
  current_frame self.

Section Clock.

(** [time n] is the [n]-th reading of [time.time()]. *)
Variable time : nat -> Q.

(** [_maintain_buffer].  The loop guard reads the clock only when the
    timestamp list is not empty; every iteration removes the head of
    both sequences.  [None]: the call waits in [frame_buffer.get()]. *)
Fixpoint maintain_buffer (ts : list Q) (q : list Frame) (n : nat)
    : option (list Frame * list Q * nat) :=
  match ts with
  | [] => Some (q, [], n)
  | t0 :: ts' =>
      if Qlt_bool 2 (time n - t0) then
        match queue_get q with
        | None => None
        | Some (_, q') => maintain_buffer ts' q' (S n)
        end
      else Some (q, ts, S n)
  end.

(** [add_frame]. *)
Definition add_frame (self : VideoStreamHandler) (frame : Frame)
    : option VideoStreamHandler :=
  '(q, ts, n) ← maintain_buffer (frame_timestamps self) (frame_buffer self) (clock self);
  q ← (if queue_full (maxsize self) q then snd <$> queue_get q else Some q);
  q ← queue_put (maxsize self) q frame;
  Some (mkHandler (maxsize self) q (ts ++ [time n]) (Some frame) (S n)).

Fixpoint add_frames (self : VideoStreamHandler) (frames : list Frame)
    : option VideoStreamHandler :=
  match frames with
  | [] => Some self
  | f :: rest => self' ← add_frame self f; add_frames self' rest
  end.

(** [_get_timed_frames]. *)
Definition get_timed_frames (self : VideoStreamHandler) : list (Frame * Q) :=
  zip (frame_buffer self) (frame_timestamps self).

End Clock.

(** ** Effects of a recorder call *)

Inductive level := DEBUG | INFO | WARNING | ERROR | CRITICAL.

(** What a call does to the outside, in the order it does it. *)
Inductive effect :=
| Makedirs (dir : string)
| Log (lv : level) (msg : string)
| OpenWriter (path fourcc : string) (fps : Q) (width height : nat)
| Write (frame : Frame)
| Release
| Sleep (seconds : Q).

(** The collaborators of a call: the clock, the file system, the video
    writer of OpenCV and the live-frame accessor.  [write_raises k] tells
    whether the [k]-th call of [write] raises, [live k] is the answer of the
    [k]-th call of the accessor, and [exn_text e] is the text [str(e)] of
    an exception, which the model leaves to the interpreter and the
    libraries that raise it. *)
Record Env := mkEnv {
  env_time : nat -> Q;
  env_stamp : string;
  makedirs_raises : bool;
  writer_raises : bool;
  writer_opens : bool;
  write_raises : nat -> bool;
  live : nat -> option Frame;
  exn_text : exn -> string
}.

(** The state a call threads: how often the clock, [write] and the accessor
    have been used, the effects so far, and whether the local name that
    holds the writer has been assigned. *)
Record World := mkWorld {
  ticks : nat;
  writes : nat;
  fetches : nat;
  trace : list effect;
  writer_bound : bool
}.

Definition fresh_world : World := mkWorld 0 0 0 [] false.

(** A call has returned, has raised, or is still in its loop when the
    fuel is used up. *)
Inductive outcome (A : Type) :=
| Returned (a : A)
| Raised (e : exn)
| Running.
Arguments Returned {A} a.
Arguments Raised {A} e.
Arguments Running {A}.

Definition M (A : Type) : Type := World -> outcome A * World.

Definition ret {A} (a : A) : M A := fun w => (Returned a, w).

Definition bind {A B} (m : M A) (k : A -> M B) : M B :=
  fun w =>
    match m w with
    | (Returned a, w') => k a w'
    | (Raised e, w') => (Raised e, w')
    | (Running, w') => (Running, w')
    end.

Notation "x <- m ;; k" := (bind m (fun x => k))
  (at level 20, m at level 99, k at level 200, only parsing).
Notation "m ;; k" := (bind m (fun _ => k))
  (at level 100, k at level 200, only parsing, right associativity).

Definition raise {A} (e : exn) : M A := fun w => (Raised e, w).

Definition diverge {A} : M A := fun w => (Running, w).

Definition emit (e : effect) : M unit :=
  fun w => (Returned tt,
            mkWorld (ticks w) (writes w) (fetches w) (trace w ++ [e]) (writer_bound w)).

(** [try: body except Exception as e: handler e]. *)
Definition try_except {A} (body : M A) (handler : exn -> M A) : M A :=
  fun w =>
    match body w with
    | (Raised e, w') => handler e w'
    | r => r
    end.

(** [try: body finally: cleanup]. *)
Definition try_finally {A} (body : M A) (cleanup : M unit) : M A :=
  fun w =>
    match body w with
    | (Running, w') => (Running, w')
    | (r, w') =>
        match cleanup w' with
        | (Returned _, w'') => (r, w'')
        | (Raised e, w'') => (Raised e, w'')
        | (Running, w'') => (Running, w'')
        end
    end.

(** [os.path.join dir name] for a relative [name]. *)
Definition ends_with_slash (s : string) : bool :=
  match String.length s with
  | O => false
  | S n => if String.eqb (String.substring n 1 s) "/" then true else false
  end.

Definition path_join (dir name : string) : string :=
  if String.eqb dir "" then name
  else if ends_with_slash dir then dir ++ name
  else dir ++ "/" ++ name.

Section Recorder.

Variable env : Env.

(** [time.time()]. *)
Definition read_clock : M Q :=
  fun w => (Returned (env_time env (ticks w)),
            mkWorld (S (ticks w)) (writes w) (fetches w) (trace w) (writer_bound w)).

(** [os.makedirs(dir, exist_ok=True)]. *)
Definition makedirs (dir : string) : M unit :=
  if makedirs_raises env then raise OSError else emit (Makedirs dir).

(** [writer = cv2.VideoWriter(path, fourcc, fps, (width, height))]. *)
Definition open_writer (path fourcc : string) (fps : Q) (width height : nat) : M unit :=
  if writer_raises env then raise CvError
  else
    emit (OpenWriter path fourcc fps width height) ;;
    fun w => (Returned tt,
              mkWorld (ticks w) (writes w) (fetches w) (trace w) true).

(** [writer.write(frame)]. *)
Definition write (frame : Frame) : M unit :=
  fun w =>
    let w' := mkWorld (ticks w) (S (writes w)) (fetches w) (trace w) (writer_bound w) in
    if write_raises env (writes w) then (Raised CvError, w')
    else emit (Write frame) w'.

(** The live-frame accessor. *)
Definition fetch : M (option Frame) :=
  fun w => (Returned (live env (fetches w)),
            mkWorld (ticks w) (writes w) (S (fetches w)) (trace w) (writer_bound w)).

(** [time.sleep(seconds)]. *)
Definition sleep (seconds : Q) : M unit :=
  if Qlt_bool seconds 0 then raise (ValueError "sleep length must be non-negative")
  else emit (Sleep seconds).

(** [a / b] on numbers. *)
Definition true_div (a b : Q) : M Q :=
  if Qeq_bool b 0 then raise ZeroDivisionError else ret (a / b)%Q.

Fixpoint write_each (frames : list Frame) : M unit :=
  match frames with
  | [] => ret tt
  | frame :: rest => write frame ;; write_each rest
  end.

End Recorder.

(** ** The clip recorder: [EventClipRecorder] *)

(** [fps] and [post_event_seconds] are the numbers [main] reads from the
    configuration, whole or not. *)
Record EventClipRecorder := mkRecorder {
  fps : Q;
  post_event_seconds : Q;
  output_dir : string
}.

(** [EventClipRecorder.__init__]: [output_dir or "./clips/"]. *)
Definition new_recorder (fps post_event_seconds : Q) (output_dir : option string)
    : EventClipRecorder :=
  mkRecorder fps post_event_seconds
    match output_dir with
    | Some d => if String.eqb d "" then "./clips/" else d
    | None => "./clips/"
    end.

Section RecordClip.

Variable env : Env.
Variable self : EventClipRecorder.

(** [frame_height, frame_width = frame.shape[:2]]. *)
Definition height_width (frame : Frame) : M (nat * nat) :=
  match firstn 2 (shape frame) with
  | [h; w] => ret (h, w)
  | _ => raise (ValueError "not enough values to unpack")
  end.

(** The post-event loop: it goes on while the clock shows less than
    [post_event_seconds] since [start_time]. *)
Fixpoint post_event_loop (fuel : nat) (start_time : Q) : M unit :=
  match fuel with
  | O => diverge
  | S fuel' =>
      now <- read_clock env ;;
      if Qlt_bool (now - start_time) (post_event_seconds self) then
        frame <- fetch env ;;
        match frame with
        | Some f => write env f
        | None => ret tt
        end ;;
        pause <- true_div 1 (fps self) ;;
        sleep pause ;;
        post_event_loop fuel' start_time
      else ret tt
  end.

(** The body of the [try] statement of [record_clip]. *)
Definition record_clip_try (fuel : nat) (pre_event_frames : list Frame) : M unit :=
  makedirs env (output_dir self) ;;
  let timestamp := env_stamp env in
  let output_path := path_join (output_dir self) (timestamp ++ ".avi") in
  match pre_event_frames with
  | [] => emit (Log WARNING "No pre-event frames available")
  | first :: _ =>
      hw <- height_width first ;;
      open_writer env output_path "mp4v" (fps self) (snd hw) (fst hw) ;;
      write_each env pre_event_frames ;;
      start_time <- read_clock env ;;
      post_event_loop fuel start_time ;;
      emit (Log INFO ("Successfully recorded clip to " ++ output_path))
  end.

(** The [finally] clause: [if 'video_writer' in locals(): release()]. *)
Definition release_if_bound : M unit :=
  fun w => if writer_bound w then emit Release w else ret tt w.

(** [EventClipRecorder.record_clip]; the writer name is unbound when the
    call begins. *)
Definition record_clip (fuel : nat) (pre_event_frames : list Frame) : M unit :=
  fun w =>
    let w := mkWorld (ticks w) (writes w) (fetches w) (trace w) false in
    try_finally
      (try_except (record_clip_try fuel pre_event_frames)
         (fun e => emit (Log ERROR ("Error recording video clip: " ++ exn_text env e))))
      release_if_bound w.

End RecordClip.

(** Reading a trace. *)
Definition written (tr : list effect) : list Frame :=
  omap (fun e => match e with Write f => Some f | _ => None end) tr.

Definition is_open (e : effect) : bool :=
  match e with OpenWriter _ _ _ _ _ => true | _ => false end.

Definition is_release (e : effect) : bool :=
  match e with Release => true | _ => false end.

Definition is_sink_effect (e : effect) : bool :=
  match e with
  | OpenWriter _ _ _ _ _ | Write _ | Release => true
  | _ => false
  end.

Definition logged (tr : list effect) : list (level * string) :=
  omap (fun e => match e with Log lv msg => Some (lv, msg) | _ => None end) tr.


(** ** The detector: [AIDetector] *)

(** The YOLOv5 model and the OpenCV calls of [detect]; each may raise. *)
Record Vision := mkVision {
  cvtColor : Frame -> exn + Frame;
  resize : Frame -> nat -> nat -> exn + Frame;
  infer : Frame -> exn + list (list Q);
  names : Z -> exn + string;
  draw_detection : Frame -> Z -> Z -> Z -> Z -> string -> Q -> exn + Frame
}.

Record AIDetector := mkDetector {
  detection_threshold : Q;
  target_class_id : option Z;
  vision : Vision
}.

(** [int(x)] rounds towards zero. *)
Definition py_int (x : Q) : Z := Z.quot (Qnum x) (Z.pos (Qden x)).

Section Detect.

Variable self : AIDetector.

(** The loop over the rows of [results.xyxy[0]]: a row is unpacked into
    six numbers; a row below the threshold is skipped; for the others
    the label is looked up, the box and the label are drawn on the
    output frame, and the flag is set. *)
Fixpoint detect_rows (detections : list (list Q)) (output_frame : Frame)
    (detected : bool) : exn + (bool * Frame) :=
  match detections with
  | [] => inr (detected, output_frame)
  | det :: rest =>
      match det with
      | [x1; y1; x2; y2; conf; cls] =>
          if Qlt_bool conf (detection_threshold self) then
            detect_rows rest output_frame detected
          else
            let* label := names (vision self) (py_int cls) in
            let* output_frame :=
              draw_detection (vision self) output_frame
                (py_int x1) (py_int y1) (py_int x2) (py_int y2) label conf in
            detect_rows rest output_frame true
      | _ => inl (ValueError "wrong number of values to unpack")
      end
  end.

(** The body of the [try] statement of [detect].  The output frame is a
    copy of the input, which no call changes. *)
Definition detect_try (frame : Frame) : exn + (bool * Frame) :=
  let* frame_rgb := cvtColor (vision self) frame in
  let* frame_rgb := resize (vision self) frame_rgb 640 640 in
  let* detections := infer (vision self) frame_rgb in
  let output_frame := frame in
  detect_rows detections output_frame false.

(** [AIDetector.detect]: [except Exception] logs and returns
    [(False, frame)]. *)
Definition detect (frame : Frame) : exn + (bool * Frame) :=
  match detect_try frame with
  | inr result => inr result
  | inl _ => inr (false, frame)
  end.

End Detect.

(** ** The older copies: [stream/], [project_utils/] *)

Module Legacy.

Inductive queue_exn := Full | Empty.

Definition put_nowait (maxsize : Z) (q : list Frame) (x : Frame)
    : queue_exn + list Frame :=
  if queue_full maxsize q then inl Full else inr (q ++ [x]).

Definition get_nowait (q : list Frame) : queue_exn + (Frame * list Frame) :=
  match q with
  | [] => inl Empty
  | x :: rest => inr (x, rest)
  end.

(** The buffering step of [VideoStreamHandler.run]: the frame is put; on
    [queue.Full] the oldest frame is taken out and the put repeated. *)
Definition buffer_frame (maxsize : Z) (q : list Frame) (frame : Frame)
    : queue_exn + list Frame :=
  match put_nowait maxsize q frame with
  | inr q' => inr q'
  | inl Full =>
      match get_nowait q with
      | inl e => inl e
      | inr (_, q') => put_nowait maxsize q' frame
      end
  | inl e => inl e
  end.

Fixpoint buffer_frames (maxsize : Z) (q : list Frame) (frames : list Frame)
    : queue_exn + list Frame :=
  match frames with
  | [] => inr q
  | f :: rest =>
      match buffer_frame maxsize q f with
      | inl e => inl e
      | inr q' => buffer_frames maxsize q' rest
      end
  end.

(** [EventClipRecorder] of [project_utils/].  The class takes [fps] and
    [post_event_seconds] as [int], which its [range(int(fps *
    post_event_seconds))] needs to count passes exactly; nothing under
    [src/] constructs it with other values. *)
Record EventClipRecorder := mkRecorder {
  fps : Z;
  post_event_seconds : Z;
  output_dir : string
}.

(** [EventClipRecorder.__init__] of [project_utils/]: [output_dir or ""]. *)
Definition new_recorder (fps post_event_seconds : Z) (output_dir : option string)
    : EventClipRecorder :=
  mkRecorder fps post_event_seconds (default "" output_dir).

Section RecordClip.

Variable env : Env.
Variable self : EventClipRecorder.

(** [max(0, x)]. *)
Definition max0 (x : Q) : Q := if Qlt_bool 0 x then x else 0%Q.

(** [_sync_frame_rate]. *)
Definition sync_frame_rate (last_frame_time frame_interval : Q) : M Q :=
  let next_frame_time := (last_frame_time + frame_interval)%Q in
  now <- read_clock env ;;
  let sleep_time := max0 (next_frame_time - now) in
  sleep sleep_time ;;
  read_clock env.

Fixpoint write_frames_loop (frames : list Frame) (frame_interval last_frame_time : Q)
    : M Q :=
  match frames with
  | [] => ret last_frame_time
  | frame :: rest =>
      write env frame ;;
      last_frame_time <- sync_frame_rate last_frame_time frame_interval ;;
      write_frames_loop rest frame_interval last_frame_time
  end.

(** [_write_frames]. *)
Definition write_frames (frames : list Frame) (start_time : Q) : M Q :=
  frame_interval <- true_div 1 (inject_Z (fps self)) ;;
  write_frames_loop frames frame_interval start_time.

Fixpoint post_frames_loop (n : nat) (frame_interval last_frame_time : Q) : M Q :=
  match n with
  | O => ret last_frame_time
  | S n' =>
      frame <- fetch env ;;
      match frame with
      | Some f => write env f
      | None => ret tt
      end ;;
      last_frame_time <- sync_frame_rate last_frame_time frame_interval ;;
      post_frames_loop n' frame_interval last_frame_time
  end.

(** [_write_post_frames]: [range(int(fps * post_event_seconds))]. *)
Definition write_post_frames (last_frame_time : Q) : M Q :=
  frame_interval <- true_div 1 (inject_Z (fps self)) ;;
  let num_post_frames := (fps self * post_event_seconds self)%Z in
  post_frames_loop (Z.to_nat num_post_frames) frame_interval last_frame_time.

(** [h, w, _ = frame.shape]. *)
Definition height_width_depth (frame : Frame) : M (nat * nat) :=
  match shape frame with
  | [h; w; _] => ret (h, w)
  | _ => raise (ValueError "wrong number of values to unpack")
  end.

(** [EventClipRecorder.record_clip] of [project_utils/]. *)
Definition record_clip (pre_frames : list Frame) : M unit :=
  match pre_frames with
  | [] => emit (Log ERROR "No pre-event frames to record.")
  | first :: _ =>
      let timestamp := env_stamp env in
      let filename := ("event_" ++ timestamp ++ ".avi")%string in
      let filename :=
        if String.eqb (output_dir self) "" then filename
        else path_join (output_dir self) filename in
      hw <- height_width_depth first ;;
      open_writer env filename "MJPG" (inject_Z (fps self)) (snd hw) (fst hw) ;;
      if negb (writer_opens env) then
        emit (Log ERROR ("Could not open video writer for file: " ++ filename)%string)
      else
        emit (Log INFO ("Recording started: " ++ filename)) ;;
        start_time <- read_clock env ;;
        last_frame_time <- write_frames pre_frames start_time ;;
        write_post_frames last_frame_time ;;
        emit Release ;;
        emit (Log INFO ("Recording saved: " ++ filename))
  end.

End RecordClip.

End Legacy.

(** The loop of [ObjectDetectionApp.run] over the frames it gets, each
    given with the detector's answer for it and the content of the frame
    buffer at that moment; the result is the flag at the end and the
    recorder threads started, oldest first. *)
Fixpoint oda_run (recorded_detection : bool) (frames : list (bool * list Frame))
    : bool * list Task :=
  match frames with
  | [] => (recorded_detection, [])
  | (detected, queue) :: rest =>
      let (recorded_detection, spawned) := oda_iteration recorded_detection detected queue in
      let (final, more) := oda_run recorded_detection rest in
      (final, spawned ++ more)
  end.

(** ** The entry point: [main] *)



Definition main_post_event_seconds (app_config : gmap string pyval) : pyval :=
  dict_get app_config "post_event_seconds" (PNum 20).

(** [max_pre_frames = int(pre_event_seconds * fps)] on whole numbers.  The
    product of two [int]s is exact, and so is the product of two floats
    that hold whole numbers as long as it is below [2^53]; [int] then
    changes nothing.  A product that is not a whole number is rounded to
    a double before [int] truncates it: that case is left out. *)
Definition max_pre_frames (pre_event_seconds fps : Z) : Z :=
  (pre_event_seconds * fps)%Z.

(** One pass of the post-event loop of [record_clip], after its guard. *)
Definition post_event_pass_body (env : Env) (self : EventClipRecorder) : M unit :=
  frame <- fetch env ;;
  match frame with
  | Some f => write env f
  | None => ret tt
  end ;;
  pause <- true_div 1 (fps self) ;;
  sleep pause.

(** A computation that ends without reading the clock and writes at most
    [n] frames. *)
Definition writes_at_most (n : nat) {A} (m : M A) : Prop :=
  forall w r w', m w = (r, w') ->
    r <> Running /\ ticks w' = ticks w /\
    (length (written (trace w')) <= length (written (trace w)) + n)%nat.

(** ** The capture loop: [VideoStreamHandler.run] *)

(** One call of [camera.get_frame()]: a frame, [None], [RuntimeError], or
    an exception of another class. *)
Inductive capture :=
| Captured (frame : Frame)
| NoFrame
| CameraRuntimeError (msg : string)
| CameraRaises (e : exn).

(** The handler as its own thread uses it: the buffer record above
    ([stream]) with the two pacing attributes, the number of calls of
    [camera.get_frame()] made so far, every [time.sleep] so far (the index
    of the clock reading made just before it, and its length), and the
    messages logged. *)
Record CaptureThread := mkThread {
  stream : VideoStreamHandler;
  last_frame_time : Q;
  target_frame_interval : Q;
  polls : nat;
  naps : list (nat * Q);
  messages : list (level * string)
}.

(** How [run] is left. *)
Inductive run_end :=
| Finished
| Escaped (e : exn)
| Waiting
| Looping.

Definition set_clock (n : nat) (self : VideoStreamHandler) : VideoStreamHandler :=
  mkHandler (maxsize self) (frame_buffer self) (frame_timestamps self)
            (current_frame self) n.

Definition set_stream (h : VideoStreamHandler) (self : CaptureThread) : CaptureThread :=
  mkThread h (last_frame_time self) (target_frame_interval self) (polls self)
           (naps self) (messages self).

Definition log_message (lv : level) (msg : string) (self : CaptureThread)
    : CaptureThread :=
  mkThread (stream self) (last_frame_time self) (target_frame_interval self)
           (polls self) (naps self) (messages self ++ [(lv, msg)]).

Section Capture.

Variable time : nat -> Q.
(** [camera k] is what the [k]-th call of [camera.get_frame()] does. *)
Variable camera : nat -> capture.
Variable detector : AIDetector.

(** [VideoStreamHandler.__init__]: [fps] is 30.0 and the clock is read
    once. *)
Definition new_thread (max_pre_frames : Z) : CaptureThread :=
  mkThread (set_clock 1 (new_handler max_pre_frames)) (time 0) (1 / 30) 0 [] [].

(** [_sync_frame_rate]: [max(0.0, x)] is [x] when [0.0 < x]. *)
Definition sync_frame_rate (self : CaptureThread) : CaptureThread :=
  let n := clock (stream self) in
  let current_time := time n in
  let elapsed := (current_time - last_frame_time self)%Q in
  let sleep_time := Legacy.max0 (target_frame_interval self - elapsed) in
  mkThread (set_clock (S (S n)) (stream self)) (time (S n))
           (target_frame_interval self) (polls self)
           (naps self ++ [(n, sleep_time)]) (messages self).

(** [camera.get_frame()]. *)
Definition get_frame (self : CaptureThread) : capture * CaptureThread :=
  (camera (polls self),
   mkThread (stream self) (last_frame_time self) (target_frame_interval self)
            (S (polls self)) (naps self) (messages self)).

(** The [while True] loop of [run], up to the exception that ends it:
    a [RuntimeError] with its text, or an exception of another class. *)
Fixpoint run_loop (fuel : nat) (self : CaptureThread)
    : (run_end + (string + exn)) * CaptureThread :=
  match fuel with
  | O => (inl Looping, self)
  | S fuel' =>
      let self := sync_frame_rate self in
      let (frame, self) := get_frame self in
      match frame with
      | NoFrame =>
          run_loop fuel'
            (log_message WARNING "Received an empty frame from the camera." self)
      | Captured frame =>
          match detect detector frame with
          | inl e => (inr (inr e), self)
          | inr (_, frame_with_boxes) =>
              match add_frame time (stream self) frame_with_boxes with
              | None => (inl Waiting, self)
              | Some h => run_loop fuel' (set_stream h self)
              end
          end
      | CameraRuntimeError msg => (inr (inl msg), self)
      | CameraRaises e => (inr (inr e), self)
      end
  end.

(** [VideoStreamHandler.run]. *)
Definition run (fuel : nat) (self : CaptureThread) : run_end * CaptureThread :=
  let self := log_message INFO "Video stream handler started." self in
  let (r, self) := run_loop fuel self in
  match r with
  | inl still => (still, self)
  | inr (inl msg) =>
      let self := log_message ERROR ("Camera error: " ++ msg)%string self in
      (Finished, log_message INFO "Video stream handler stopped." self)
  | inr (inr e) =>
      (Escaped e, log_message INFO "Video stream handler stopped." self)
  end.

(** What the detector makes of the frames the camera delivers at the
    calls [from], ..., [from + n - 1]. *)
Definition annotated (from n : nat) : list Frame :=
  omap (fun k => match camera k with
                 | Captured frame =>
                     match detect detector frame with
                     | inr (_, frame_with_boxes) => Some frame_with_boxes
                     | inl _ => None
                     end
                 | _ => None
                 end) (seq from n).

End Capture.

(** The sleep recorded as [(n, d)] lasted at least [d]. *)
Definition honoured (time : nat -> Q) (nap : nat * Q) : Prop :=
  (time (fst nap) + snd nap <= time (S (fst nap)))%Q.

(** ** Readings of a run *)

(** The clock reading of an event, when it is a frame. *)
Definition event_time (ev : event) : option Q :=
  match ev with
  | ProcessFrame t _ _ => Some t
  | RecorderDone => None
  end.

Definition frame_times (evs : list event) : list Q := omap event_time evs.

(** Any two neighbours of the list are more than [gap] apart. *)
Fixpoint spaced (gap : Q) (ts : list Q) : Prop :=
  match ts with
  | a :: (b :: _) as rest => (gap < b - a)%Q /\ spaced gap rest
  | _ => True
  end.

(** ** Predicates used in the statements *)

(** A clock never runs backwards. *)
Definition monotone (time : nat -> Q) : Prop :=
  forall n m, (n <= m)%nat -> (time n <= time m)%Q.



(** A computation is tidy when it only adds effects, never releases the
    writer, and binds the writer name exactly when it opens a writer. *)
Definition tidy {A} (m : M A) : Prop :=
  forall w r w', m w = (r, w') ->
    exists added,
      trace w' = trace w ++ added /\
      existsb is_release added = false /\
      writer_bound w' = writer_bound w || existsb is_open added.

(** The flag is raised exactly while one recorder thread runs. *)
Definition flag_matches_threads (sys : System) : Prop :=
  (recording_in_progress (app sys) = true /\ length (running sys) = 1%nat) \/
  (recording_in_progress (app sys) = false /\ running sys = []).

(** A row meets the threshold when its fifth entry is not below it. *)
Definition meets_threshold (self : AIDetector) (det : list Q) : Prop :=
  exists conf, det !! 4%nat = Some conf /\ (detection_threshold self <= conf)%Q.

(** ** Sample inputs *)

Definition sample_config : gmap string pyval :=
  {[ "fps" := PNum 30; "pre_event_seconds" := PNum 2; "post_event_seconds" := PNum 5 ]}.

Definition sample_frame : Frame := mkFrame [2; 2; 3]%nat [10; 20; 30]%Z.

Definition other_frame : Frame := mkFrame [2; 2; 3]%nat [11; 21; 31]%Z.

(** An orchestrator as [__init__] leaves it, at clock reading 0. *)
Definition sample_app : CanAI := mkCanAI sample_config false 0 0%Q 0%Q false.

(** The system after the frame that triggered a recording at clock
    reading 100. *)
Definition busy_system : System :=
  mkSystem (mkCanAI sample_config false 1 0%Q 100%Q true) [[sample_frame]].

(** Clocks: one reading per second, one per tenth of a second, and one
    that stalls at ten seconds after three readings a tenth apart. *)
Definition seconds (n : nat) : Q := Z.of_nat n # 1.

Definition tenths (n : nat) : Q := Z.of_nat n # 10.

Definition stalled (n : nat) : Q := if (n <? 3)%nat then tenths n else 10%Q.

(** The handler of capacity 2 after three frames, under [seconds]. *)
Definition sample_handler : VideoStreamHandler :=
  mkHandler 2 [other_frame; sample_frame] [2%Q; 5%Q] (Some sample_frame) 6.



(** The handler of capacity 1 after two frames, under [tenths]. *)
Definition skewed_handler : VideoStreamHandler :=
  mkHandler 1 [other_frame] [0 # 10; 2 # 10]%Q (Some other_frame) 3.



(** A clock that shows 0 at its first reading and from then on advances
    by 0.15 s per reading: a loop that sleeps 0.1 s and works 0.05 s. *)
Definition paced (n : nat) : Q :=
  match n with
  | O => 0%Q
  | S m => ((15 # 100) * (Z.of_nat m # 1))%Q
  end.

(** Texts for the exceptions of the sample runs. *)
Definition sample_text (e : exn) : string :=
  match e with
  | ValueError msg => msg
  | KeyError k => k
  | TypeError => "TypeError"
  | ZeroDivisionError => "division by zero"
  | OSError => "OSError"
  | CvError => "cv2.error"
  end.

(** Collaborators that never fail, with a frame always available. *)
Definition slow_env : Env :=
  mkEnv paced "20240101_120000" false false true
        (fun _ => false) (fun _ => Some other_frame) sample_text.

(** The same, except that the very first [write] raises. *)
Definition failing_env : Env :=
  mkEnv paced "20240101_120000" false false true
        (fun k => Nat.eqb k 0) (fun _ => Some other_frame) sample_text.

Definition sample_recorder : EventClipRecorder := new_recorder 10 1 None.

Definition legacy_recorder : Legacy.EventClipRecorder := Legacy.new_recorder 10 1 None.

(** An older recorder built with a frame rate of zero. *)
Definition zero_rate_recorder : Legacy.EventClipRecorder :=
  Legacy.new_recorder 0 1 None.

(** A recorder with settings that are not whole numbers (2 frames per
    second, a post-event time of 0.75 s), and collaborators whose clock,
    after two readings of 0, advances by half a second per reading: the
    first test of the loop comes at once, every pass takes the 0.5 s of
    its sleep. *)
Definition fractional_recorder : EventClipRecorder := new_recorder 2 (3 # 4) None.

Definition halves (n : nat) : Q := Z.of_nat (pred n) # 2.

Definition steady_env : Env :=
  mkEnv halves "20240101_120000" false false true
        (fun _ => false) (fun _ => Some other_frame) sample_text.

(** A detector whose model reports one box of confidence 0.2, below the
    threshold 0.5, and one whose colour conversion raises. *)
Definition quiet_vision : Vision :=
  mkVision (fun f => inr f) (fun f _ _ => inr f)
           (fun _ => inr [[0; 0; 10; 10; 2 # 10; 0]%Q])
           (fun _ => inr "can")
           (fun f _ _ _ _ _ _ => inr f).

Definition broken_vision : Vision :=
  mkVision (fun _ => inl CvError) (fun f _ _ => inr f)
           (fun _ => inr [[0; 0; 10; 10; 9 # 10; 0]%Q])
           (fun _ => inr "can")
           (fun f _ _ _ _ _ _ => inr f).

Definition quiet_detector : AIDetector := mkDetector (5 # 10) None quiet_vision.

Definition broken_detector : AIDetector := mkDetector (5 # 10) None broken_vision.

(** A configuration whose post-event tail is shorter than the cooldown,
    the orchestrator built from it, and a run in which a recording is
    triggered at 100, is over by 101.5, and a frame at or above the high
    threshold is handled at 101.5. *)
Definition short_config : gmap string pyval :=
  {[ "fps" := PNum 30; "pre_event_seconds" := PNum 2; "post_event_seconds" := PNum 1 ]}.

Definition short_app : CanAI := mkCanAI short_config false 0 0%Q 0%Q false.

Definition refresh_events : list event :=
  [ProcessFrame 100 [(9 # 10)%Q] [sample_frame];
   RecorderDone;
   ProcessFrame (1015 # 10) [(9 # 10)%Q] [sample_frame]].

Definition refreshed_system : System :=
  mkSystem (mkCanAI short_config false 2 0%Q (1015 # 10)%Q false) [].

(** A run with a second trigger: the frame at 104 comes 2.5 s after the
    time of the last detection. *)
Definition spaced_events : list event :=
  refresh_events ++ [ProcessFrame 104 [(9 # 10)%Q] [other_frame]].

(** A detector whose model reports one box above the threshold (0.9, no
    failure at any step) and marks the frame it draws it on. *)
Definition keen_vision : Vision :=
  mkVision (fun f => inr f) (fun f _ _ => inr f)
           (fun _ => inr [[0; 0; 10; 10; 9 # 10; 0]%Q])
           (fun _ => inr "can")
           (fun f _ _ _ _ _ _ => inr (mkFrame (shape f) (255%Z :: pixels f))).

Definition keen_detector : AIDetector := mkDetector (5 # 10) None keen_vision.

(** A configuration with a string where the frame rate should be. *)
Definition mistyped_config : gmap string pyval :=
  <["fps" := PStr "30"]> sample_config.

(** A configuration with the three keys, a text where the pre-event time
    should be, and a negative post-event time. *)
Definition text_config : gmap string pyval :=
  {[ "fps" := PNum 30; "pre_event_seconds" := PStr "x";
     "post_event_seconds" := PNum (-1) ]}.

(** A camera that delivers a frame, nothing, another frame, and then
    fails; a capture thread of capacity 2 under [seconds]. *)
Definition sample_camera (k : nat) : capture :=
  match k with
  | 0 => Captured sample_frame
  | 1 => NoFrame
  | 2 => Captured other_frame
  | _ => CameraRuntimeError "Frame didn't arrive within 5000"
  end%nat.

Definition sample_thread : CaptureThread := new_thread seconds 2.

(** * Properties *)

(** ** Comparisons *)

Lemma Qlt_bool_iff (x y : Q) : Qlt_bool x y = true <-> (x < y)%Q.
Proof.
  unfold Qlt_bool. rewrite Qlt_alt.
  destruct (x ?= y)%Q; split; intros H; congruence.
Qed.

Lemma Qlt_bool_false (x y : Q) : Qlt_bool x y = false <-> (y <= x)%Q.
Proof.
  split; intros H.
  - apply Qnot_lt_le. intros Hlt. apply Qlt_bool_iff in Hlt. congruence.
  - destruct (Qlt_bool x y) eqn:E; [|reflexivity].
    apply Qlt_bool_iff in E. exfalso. exact (Qlt_not_le _ _ E H).
Qed.

Lemma Qle_bool_false (x y : Q) : Qle_bool x y = false <-> (y < x)%Q.
Proof.
  split; intros H.
  - apply Qnot_le_lt. intros Hle. apply Qle_bool_iff in Hle. congruence.
  - destruct (Qle_bool x y) eqn:E; [|reflexivity].
    apply Qle_bool_iff in E. exfalso. exact (Qlt_not_le _ _ H E).
Qed.

(** ** Configuration validation *)

Lemma check_required_ok (keys : list string) (cfg : gmap string pyval) :
  (forall k, In k keys -> is_Some (cfg !! k)) ->
  check_required keys cfg = inr tt.
Proof.
  induction keys as [|k keys IH]; intros Hall; simpl; [reflexivity|].
  destruct (Hall k (or_introl eq_refl)) as [v ->].
  apply IH. intros k' Hk'. apply Hall. now right.
Qed.

Lemma check_required_missing (keys : list string) (cfg : gmap string pyval) (k : string) :
  In k keys -> cfg !! k = None ->
  exists k', In k' keys /\ cfg !! k' = None /\
    check_required keys cfg
    = inl (ValueError ("Missing required configuration key: " ++ k')).
Proof.
  induction keys as [|k0 keys IH]; intros Hin Hnone; [destruct Hin|].
  simpl. destruct (cfg !! k0) eqn:E.
  - destruct Hin as [->|Hin]; [congruence|].
    destruct (IH Hin Hnone) as (k' & Hk' & Hn & Heq).
    exists k'. split; [now right|]. split; assumption.
  - exists k0. split; [now left|]. split; [assumption|reflexivity].
Qed.

(** The outcome of validation on a configuration whose three settings are
    numbers. *)
Lemma validate_config_numbers (cfg : gmap string pyval) (f p q : Q) :
  cfg !! "fps" = Some (PNum f) ->
  cfg !! "pre_event_seconds" = Some (PNum p) ->
  cfg !! "post_event_seconds" = Some (PNum q) ->
  validate_config cfg =
    if negb (Qle_bool 1 f && Qle_bool f 60)
    then inl (ValueError "FPS must be between 1 and 60")
    else if Qlt_bool p 0
    then inl (ValueError "Pre-event seconds cannot be negative")
    else if Qlt_bool q 0
    then inl (ValueError "Post-event seconds cannot be negative")
    else inr tt.
Proof.
  intros Hf Hp Hq. unfold validate_config.
  rewrite check_required_ok.
  2:{ intros k [<-|[<-|[<-|[]]]]; eauto. }
  unfold getitem, fps_in_range, py_le, py_lt. rewrite Hf, Hp, Hq. simpl.
  destruct (Qle_bool 1 f); simpl.
  - destruct (Qle_bool f 60); simpl; [|reflexivity].
    destruct (Qlt_bool p 0); simpl; [reflexivity|].
    destruct (Qlt_bool q 0); reflexivity.
  - reflexivity.
Qed.

(** A configuration that passes validation holds three numbers in
    range. *)
Lemma validate_config_inv (cfg : gmap string pyval) :
  validate_config cfg = inr tt ->
  exists f p q,
    cfg !! "fps" = Some (PNum f) /\
    cfg !! "pre_event_seconds" = Some (PNum p) /\
    cfg !! "post_event_seconds" = Some (PNum q) /\
    (1 <= f /\ f <= 60 /\ 0 <= p /\ 0 <= q)%Q.
Proof.
  unfold validate_config, getitem, fps_in_range, py_le, py_lt. simpl.
  destruct (cfg !! "fps") as [[f| |]|]; simpl; try discriminate.
  2,3: destruct (cfg !! "pre_event_seconds"); simpl; try discriminate;
       destruct (cfg !! "post_event_seconds"); simpl; discriminate.
  destruct (cfg !! "pre_event_seconds") as [vp|]; simpl; try discriminate.
  destruct (cfg !! "post_event_seconds") as [vq|]; simpl; try discriminate.
  destruct (Qle_bool 1 f) eqn:E1; simpl; try discriminate.
  destruct (Qle_bool f 60) eqn:E2; simpl; try discriminate.
  destruct vp as [p| |]; simpl; try discriminate.
  destruct (Qlt_bool p 0) eqn:E3; simpl; try discriminate.
  destruct vq as [q| |]; simpl; try discriminate.
  destruct (Qlt_bool q 0) eqn:E4; simpl; try discriminate.
  intros _. exists f, p, q.
  apply Qle_bool_iff in E1, E2. apply Qlt_bool_false in E3, E4. tauto.
Qed.

Lemma check_required_raises (keys : list string) (cfg : gmap string pyval) (e : exn) :
  check_required keys cfg = inl e -> exists msg, e = ValueError msg.
Proof.
  induction keys as [|k keys IH]; simpl; [discriminate|].
  destruct (cfg !! k); [exact IH|]. intros [= <-]. eauto.
Qed.

Lemma check_required_present (keys : list string) (cfg : gmap string pyval) :
  check_required keys cfg = inr tt -> forall k, In k keys -> is_Some (cfg !! k).
Proof.
  induction keys as [|k0 keys IH]; simpl; intros H k Hin; [destruct Hin|].
  destruct (cfg !! k0) eqn:E; [|discriminate].
  destruct Hin as [<-|Hin]; [rewrite E; eauto|]. now apply IH.
Qed.

(** C4 (as amended). Construction of the orchestrator on a configuration
    that lacks one of the keys [fps], [pre_event_seconds],
    [post_event_seconds] raises [ValueError]; on a configuration that holds
    a number under each of them it raises [ValueError] exactly when [fps]
    is outside [1, 60] or one of the two durations is negative, and
    succeeds otherwise.  On any configuration whatever, what it raises is
    a [ValueError], or a [TypeError] when the value under one of the three
    keys is not a number. *)
Theorem init_validates_config (cfg : gmap string pyval) (now : Q) :
  (forall k, In k required_keys -> cfg !! k = None ->
     exists msg, init cfg now = inl (ValueError msg)) /\
  (forall f p q,
     cfg !! "fps" = Some (PNum f) ->
     cfg !! "pre_event_seconds" = Some (PNum p) ->
     cfg !! "post_event_seconds" = Some (PNum q) ->
     ((exists msg, init cfg now = inl (ValueError msg))
        <-> (~ (1 <= f /\ f <= 60) \/ p < 0 \/ q < 0)%Q) /\
     ((exists self, init cfg now = inr self)
        <-> (1 <= f /\ f <= 60 /\ 0 <= p /\ 0 <= q)%Q)) /\
  (forall e, init cfg now = inl e ->
     (exists msg, e = ValueError msg) \/
     (e = TypeError /\
      exists k v, In k required_keys /\ cfg !! k = Some v /\ as_num v = inl TypeError)).
Proof.
  split; [|split].
  - intros k Hin Hnone. unfold init, validate_config. simpl config.
    destruct (check_required_missing _ _ _ Hin Hnone) as (k' & _ & _ & ->).
    simpl. eauto.
  - intros f p q Hf Hp Hq. unfold init. simpl config.
    rewrite (validate_config_numbers cfg f p q Hf Hp Hq).
    destruct (Qle_bool 1 f) eqn:E1; simpl.
    2:{ apply Qle_bool_false in E1. split; split.
        - intros _. left. intros [H _]. exact (Qlt_not_le _ _ E1 H).
        - eauto.
        - intros [self H]. discriminate.
        - intros [H _]. exfalso. exact (Qlt_not_le _ _ E1 H). }
    apply Qle_bool_iff in E1.
    destruct (Qle_bool f 60) eqn:E2; simpl.
    2:{ apply Qle_bool_false in E2. split; split.
        - intros _. left. intros [_ H]. exact (Qlt_not_le _ _ E2 H).
        - eauto.
        - intros [self H]. discriminate.
        - intros (_ & H & _). exfalso. exact (Qlt_not_le _ _ E2 H). }
    apply Qle_bool_iff in E2.
    destruct (Qlt_bool p 0) eqn:E3; simpl.
    { apply Qlt_bool_iff in E3. split; split.
      - intros _. right. now left.
      - eauto.
      - intros [self H]. discriminate.
      - intros (_ & _ & H & _). exfalso. exact (Qlt_not_le _ _ E3 H). }
    apply Qlt_bool_false in E3.
    destruct (Qlt_bool q 0) eqn:E4; simpl.
    { apply Qlt_bool_iff in E4. split; split.
      - intros _. right. now right.
      - eauto.
      - intros [self H]. discriminate.
      - intros (_ & _ & _ & H). exfalso. exact (Qlt_not_le _ _ E4 H). }
    apply Qlt_bool_false in E4. split; split.
    + intros [msg H]. discriminate.
    + intros [H|[H|H]].
      * exfalso. apply H. split; assumption.
      * exfalso. exact (Qlt_not_le _ _ H E3).
      * exfalso. exact (Qlt_not_le _ _ H E4).
    + intros _. tauto.
    + intros _. eauto.
  - intros e. unfold init, validate_config. simpl config.
    destruct (check_required required_keys cfg) as [e0|[]] eqn:Hreq; simpl.
    { intros [= <-]. left. exact (check_required_raises _ _ _ Hreq). }
    pose proof (check_required_present _ _ Hreq) as Hall.
    destruct (Hall "fps") as [vf Hf]; [simpl; tauto|].
    destruct (Hall "pre_event_seconds") as [vp Hp]; [simpl; tauto|].
    destruct (Hall "post_event_seconds") as [vq Hq]; [simpl; tauto|].
    assert (forall k v, In k required_keys -> cfg !! k = Some v ->
              as_num v = inl TypeError ->
              (exists msg, TypeError = ValueError msg) \/
              (TypeError = TypeError /\
               exists k v, In k required_keys /\ cfg !! k = Some v
                           /\ as_num v = inl TypeError)) as Hbad.
    { intros k v Hin Hk Hv. right. split; [reflexivity|]. exists k, v. auto. }
    unfold getitem, fps_in_range, py_le, py_lt. rewrite Hf, Hp, Hq. simpl.
    destruct vf as [f| |]; simpl;
      try (intros [= <-]; apply (Hbad "fps" _ ltac:(simpl; tauto) Hf eq_refl)).
    destruct (Qle_bool 1 f); simpl; [|intros [= <-]; eauto].
    destruct (Qle_bool f 60); simpl; [|intros [= <-]; eauto].
    destruct vp as [p| |]; simpl;
      try (intros [= <-];
           apply (Hbad "pre_event_seconds" _ ltac:(simpl; tauto) Hp eq_refl)).
    destruct (Qlt_bool p 0); simpl; [intros [= <-]; eauto|].
    destruct vq as [q| |]; simpl;
      try (intros [= <-];
           apply (Hbad "post_event_seconds" _ ltac:(simpl; tauto) Hq eq_refl)).
    destruct (Qlt_bool q 0); simpl; [intros [= <-]; eauto|discriminate].
Qed.

Lemma init_validates_config_witness :
  (exists msg, init (delete "fps" sample_config) 0 = inl (ValueError msg)) /\
  (exists msg, init (<["fps" := PNum 61]> sample_config) 0 = inl (ValueError msg)) /\
  (exists self, init sample_config 0 = inr self).
Proof.
  split; [|split].
  - apply (proj1 (init_validates_config (delete "fps" sample_config) 0) "fps").
    + simpl. tauto.
    + vm_compute. reflexivity.
  - apply (proj1 (proj2 (init_validates_config (<["fps" := PNum 61]> sample_config) 0))
             61 2 5)%Q.
    + vm_compute. reflexivity.
    + vm_compute. reflexivity.
    + vm_compute. reflexivity.
    + left. intros [_ H]. vm_compute in H. apply H. reflexivity.
  - apply (proj1 (proj2 (init_validates_config sample_config 0)) 30 2 5)%Q.
    + vm_compute. reflexivity.
    + vm_compute. reflexivity.
    + vm_compute. reflexivity.
    + repeat split; vm_compute; discriminate.
Defined.

(** Holding the three keys is not enough for the answer to be
    [ValueError] or an object.  With a text under [pre_event_seconds] and
    a negative [post_event_seconds], construction raises [TypeError] when
    it compares the text with 0, and never looks at the negative
    duration. *)
Lemma init_raises_type_error_on_text :
  (forall k, In k required_keys -> is_Some (text_config !! k)) /\
  text_config !! "post_event_seconds" = Some (PNum (-1)) /\
  init text_config 0 = inl TypeError /\
  ~ (exists msg, init text_config 0 = inl (ValueError msg)) /\
  ~ (exists self, init text_config 0 = inr self).
Proof.
  assert (init text_config 0 = inl TypeError) as Hinit by (vm_compute; reflexivity).
  split; [|split; [|split; [|split]]].
  - intros k [<-|[<-|[<-|[]]]]; vm_compute; eauto.
  - vm_compute. reflexivity.
  - exact Hinit.
  - rewrite Hinit. intros [msg H]. discriminate.
  - rewrite Hinit. intros [self H]. discriminate.
Qed.

(** ** The trigger *)

Lemma np_any_ge_num (confidence : list Q) (th : Q) :
  np_any_ge confidence (PNum th) = inr (existsb (fun c => Qle_bool th c) confidence).
Proof. reflexivity. Qed.

Lemma existsb_ge_Exists (confidence : list Q) (th : Q) :
  existsb (fun c => Qle_bool th c) confidence = true
  <-> Exists (fun c => th <= c)%Q confidence.
Proof.
  rewrite existsb_exists, Exists_exists. split.
  - intros (c & Hin & H). exists c. split.
    + now apply list_elem_of_In.
    + now apply Qle_bool_iff.
  - intros (c & Hin & H). exists c. split.
    + now apply list_elem_of_In.
    + now apply Qle_bool_iff.
Qed.

(** A call changes neither the configuration nor, unless it starts a
    thread, the in-progress flag; it starts at most one thread, and only
    when none is in progress. *)
Lemma handle_detection_cases (self self' : CanAI) (t : Q) (confidence : list Q)
    (queue : list Frame) (spawned : list Task) :
  handle_detection self t confidence queue = inr (self', spawned) ->
  config self' = config self /\
  ((spawned = [] /\ recording_in_progress self' = recording_in_progress self) \/
   (spawned = [queue] /\ recording_in_progress self = false /\
    recording_in_progress self' = true)).
Proof.
  unfold handle_detection.
  destruct (np_any_ge confidence _) as [e|above]; simpl; [discriminate|].
  destruct (above && negb (recording_in_progress self)) eqn:Hgo.
  2:{ intros [= <- <-]. split; [reflexivity|]. left. split; reflexivity. }
  apply andb_true_iff in Hgo as [_ Hrec]. apply negb_true_iff in Hrec.
  destruct (getitem (config self) "pre_event_seconds") as [e|pre]; simpl; [discriminate|].
  destruct (py_lt pre _) as [e|elapsed]; simpl; [discriminate|].
  destruct elapsed.
  { intros [= <- <-]. split; [reflexivity|]. right. repeat split. exact Hrec. }
  destruct (np_any_ge confidence _) as [e|armed]; simpl; [discriminate|].
  destruct armed.
  { intros [= <- <-]. split; [reflexivity|]. left. split; reflexivity. }
  destruct (np_all_lt confidence _) as [e|quiet]; simpl; [discriminate|].
  destruct quiet; intros [= <- <-]; (split; [reflexivity|]); left; split; reflexivity.
Qed.

(** With a recording in progress the call does nothing at all. *)
Lemma handle_detection_busy (self : CanAI) (t : Q) (confidence : list Q)
    (queue : list Frame) (high : Q) :
  as_num (dict_get (config self) "detection_threshold" (PNum (7 # 10))) = inr high ->
  recording_in_progress self = true ->
  handle_detection self t confidence queue = inr (self, []).
Proof.
  intros Hhigh Hrec. unfold handle_detection, np_any_ge.
  rewrite Hhigh, Hrec. simpl. rewrite andb_false_r. reflexivity.
Qed.

(** With no element of the array at or above the high threshold the call
    does nothing at all. *)
Lemma handle_detection_below_high (self : CanAI) (t : Q) (confidence : list Q)
    (queue : list Frame) (high : Q) :
  as_num (dict_get (config self) "detection_threshold" (PNum (7 # 10))) = inr high ->
  existsb (fun c => Qle_bool high c) confidence = false ->
  handle_detection self t confidence queue = inr (self, []).
Proof.
  intros Hhigh Hnone. unfold handle_detection, np_any_ge.
  rewrite Hhigh. simpl. rewrite Hnone. reflexivity.
Qed.

Lemma handle_detection_trigger (self : CanAI) (t : Q) (confidence : list Q)
    (queue : list Frame) (high p : Q) :
  as_num (dict_get (config self) "detection_threshold" (PNum (7 # 10))) = inr high ->
  Exists (fun c => high <= c)%Q confidence ->
  recording_in_progress self = false ->
  config self !! "pre_event_seconds" = Some (PNum p) ->
  (p < t - last_detection_time self)%Q ->
  handle_detection self t confidence queue
  = inr (set_last_detection_time t (set_recording_in_progress true self), [queue]).
Proof.
  intros Hhigh Hex Hrec Hp Hcool. unfold handle_detection, np_any_ge.
  rewrite Hhigh, Hrec. simpl.
  apply existsb_ge_Exists in Hex. rewrite Hex. simpl.
  unfold getitem. rewrite Hp. simpl.
  apply Qlt_bool_iff in Hcool. rewrite Hcool. reflexivity.
Qed.

Lemma step_preserves (cfg : gmap string pyval) (sys sys' : System) (ev : event) :
  config (app sys) = cfg -> flag_matches_threads sys ->
  step sys ev = inr sys' ->
  config (app sys') = cfg /\ flag_matches_threads sys'.
Proof.
  intros Hcfg Hinv. destruct ev as [t confidence queue|]; simpl.
  - destruct (handle_detection (app sys) t confidence queue) as [e|[self spawned]] eqn:Hhd;
      simpl; [discriminate|].
    intros [= <-]. simpl.
    apply handle_detection_cases in Hhd as [Hc Hcases].
    split; [congruence|].
    unfold flag_matches_threads. simpl.
    destruct Hcases as [[-> Hsame]|(-> & Hwas & Hnow)].
    + rewrite app_nil_r, Hsame. exact Hinv.
    + left. split; [exact Hnow|].
      destruct Hinv as [[Ht _]|[_ ->]]; [congruence|reflexivity].
  - destruct (running sys) as [|task rest] eqn:Hrun.
    + intros [= <-]. split; [exact Hcfg|exact Hinv].
    + intros [= <-]. simpl. split; [exact Hcfg|].
      right. split; [reflexivity|].
      destruct Hinv as [[_ Hlen]|[_ Hnil]].
      * rewrite Hrun in Hlen. simpl in Hlen. destruct rest; [reflexivity|discriminate].
      * rewrite Hrun in Hnil. discriminate.
Qed.

Lemma run_events_preserves (cfg : gmap string pyval) (evs : list event) :
  forall sys sys',
    config (app sys) = cfg -> flag_matches_threads sys ->
    run_events sys evs = inr sys' ->
    config (app sys') = cfg /\ flag_matches_threads sys'.
Proof.
  induction evs as [|ev evs IH]; intros sys sys' Hcfg Hinv; simpl.
  - intros [= <-]. split; assumption.
  - destruct (step sys ev) as [e|sys1] eqn:Hstep; simpl; [discriminate|].
    destruct (step_preserves cfg sys sys1 ev Hcfg Hinv Hstep) as [Hcfg1 Hinv1].
    apply IH; assumption.
Qed.

(** C1 (as amended). In every state the orchestrator reaches from
    construction, at most one recorder thread is running, and one is
    running exactly when the in-progress flag is raised.  In such a state a
    call of the handler while the flag is raised starts no thread and
    changes nothing; a call with an element of the confidence array at or
    above the high threshold, the flag down and more than
    [pre_event_seconds] since [last_detection_time] raises the flag, records
    the trigger time in [last_detection_time] and starts exactly one
    recorder thread, whose argument is the content of the frame buffer. *)
Theorem single_recording_in_flight (cfg : gmap string pyval) (now : Q)
    (self : CanAI) (evs : list event) (sys : System) :
  init cfg now = inr self ->
  run_events (mkSystem self []) evs = inr sys ->
  (length (running sys) <= 1)%nat /\
  (recording_in_progress (app sys) = true <-> length (running sys) = 1%nat) /\
  forall (t : Q) (confidence : list Q) (queue : list Frame) (high : Q),
    as_num (dict_get cfg "detection_threshold" (PNum (7 # 10))) = inr high ->
    (recording_in_progress (app sys) = true ->
       handle_detection (app sys) t confidence queue = inr (app sys, [])) /\
    (Exists (fun c => high <= c)%Q confidence ->
     recording_in_progress (app sys) = false ->
     (forall p, cfg !! "pre_event_seconds" = Some (PNum p) ->
                (p < t - last_detection_time (app sys))%Q) ->
     exists self' sys',
       handle_detection (app sys) t confidence queue = inr (self', [queue]) /\
       recording_in_progress self' = true /\
       last_detection_time self' = t /\
       step sys (ProcessFrame t confidence queue) = inr sys' /\
       running sys' = [queue] /\
       recording_in_progress (app sys') = true).
Proof.
  intros Hinit Hrun.
  unfold init in Hinit. simpl config in Hinit.
  destruct (validate_config cfg) as [e|[]] eqn:Hval; simpl in Hinit; [discriminate|].
  injection Hinit as <-.
  destruct (run_events_preserves cfg evs
              (mkSystem (mkCanAI cfg false 0 now 0 false) []) sys eq_refl
              (or_intror (conj eq_refl eq_refl)) Hrun) as [Hcfg Hinv].
  split; [|split].
  - destruct Hinv as [[_ ->]|[_ ->]]; simpl; lia.
  - destruct Hinv as [[Ht Hl]|[Hf Hn]].
    + tauto.
    + rewrite Hn, Hf. simpl. split; discriminate.
  - intros t confidence queue high Hhigh. rewrite <- Hcfg in Hhigh. split.
    + intros Hrec. eapply handle_detection_busy; eassumption.
    + intros Hex Hrec Hcool.
      destruct (validate_config_inv cfg Hval) as (f & p & q & _ & Hp & _).
      specialize (Hcool p Hp). rewrite <- Hcfg in Hp.
      pose proof (handle_detection_trigger (app sys) t confidence queue high p
                    Hhigh Hex Hrec Hp Hcool) as Hhd.
      eexists. eexists. split; [exact Hhd|].
      split; [reflexivity|]. split; [reflexivity|].
      simpl. rewrite Hhd. simpl. split; [reflexivity|].
      destruct Hinv as [[Ht _]|[_ ->]]; [congruence|].
      split; reflexivity.
Qed.

Lemma single_recording_in_flight_witness :
  handle_detection (app busy_system) 101 [(9 # 10)%Q] [other_frame]
    = inr (app busy_system, []) /\
  exists self' sys',
    handle_detection sample_app 100 [(9 # 10)%Q] [sample_frame]
      = inr (self', [[sample_frame]]) /\
    recording_in_progress self' = true /\
    last_detection_time self' = 100%Q /\
    step (mkSystem sample_app []) (ProcessFrame 100 [(9 # 10)%Q] [sample_frame])
      = inr sys' /\
    running sys' = [[sample_frame]] /\
    recording_in_progress (app sys') = true.
Proof.
  split.
  - refine (proj1 (proj2 (proj2 (single_recording_in_flight sample_config 0 sample_app
              [ProcessFrame 100 [(9 # 10)%Q] [sample_frame]] busy_system _ _))
              101%Q [(9 # 10)%Q] [other_frame] (7 # 10)%Q _) _).
    + vm_compute. reflexivity.
    + vm_compute. reflexivity.
    + vm_compute. reflexivity.
    + reflexivity.
  - refine (proj2 (proj2 (proj2 (single_recording_in_flight sample_config 0 sample_app
              [] (mkSystem sample_app []) _ _))
              100%Q [(9 # 10)%Q] [sample_frame] (7 # 10)%Q _) _ _ _).
    + vm_compute. reflexivity.
    + reflexivity.
    + vm_compute. reflexivity.
    + apply Exists_cons_hd. vm_compute. discriminate.
    + reflexivity.
    + intros p Hp. vm_compute in Hp. injection Hp as <-. vm_compute. reflexivity.
Defined.

(** The cooldown runs from [last_detection_time], not from the last
    trigger.  A recording is triggered at 100 and is over when a frame at
    or above the high threshold is handled at 101.5, inside the cooldown of
    2 s: the frame moves [last_detection_time] to 101.5.  At 102.5, which
    is 2.5 s after the only trigger, with the same confidence and no
    recording in progress, no recording starts. *)
Lemma cooldown_runs_from_last_detection_time :
  init short_config 0 = inr short_app /\
  run_events (mkSystem short_app []) refresh_events = inr refreshed_system /\
  trigger_times (mkSystem short_app []) refresh_events = [100%Q] /\
  recording_in_progress (app refreshed_system) = false /\
  config (app refreshed_system) !! "pre_event_seconds" = Some (PNum 2) /\
  (2 < (1025 # 10) - 100)%Q /\
  np_any_ge [(9 # 10)%Q]
    (dict_get (config (app refreshed_system)) "detection_threshold" (PNum (7 # 10)))
    = inr true /\
  handle_detection (app refreshed_system) (1025 # 10) [(9 # 10)%Q] [sample_frame]
    = inr (set_last_detection_time (1025 # 10) (app refreshed_system), []).
Proof.
  repeat split; vm_compute; reflexivity.
Qed.

(** The branch that clears the recorded flag cannot be taken when the low
    threshold does not exceed the high one: no call changes the flag. *)
Lemma handle_detection_keeps_recorded_flag (self self' : CanAI) (t : Q)
    (confidence : list Q) (queue : list Frame) (spawned : list Task) (high low : Q) :
  dict_get (config self) "detection_threshold" (PNum (7 # 10)) = PNum high ->
  dict_get (config self) "low_detection_threshold" (PNum (3 # 10)) = PNum low ->
  (low <= high)%Q ->
  handle_detection self t confidence queue = inr (self', spawned) ->
  recorded_detection self' = recorded_detection self.
Proof.
  intros Hhigh Hlow Hle. unfold handle_detection.
  rewrite Hhigh, Hlow, !np_any_ge_num. simpl.
  destruct (existsb (fun c => Qle_bool high c) confidence) eqn:Habove; simpl.
  2:{ intros [= <- <-]. reflexivity. }
  destruct (negb (recording_in_progress self)); simpl.
  2:{ intros [= <- <-]. reflexivity. }
  destruct (getitem (config self) "pre_event_seconds") as [e|pre]; simpl; [discriminate|].
  destruct (py_lt pre _) as [e|elapsed]; simpl; [discriminate|].
  destruct elapsed.
  { intros [= <- <-]. reflexivity. }
  assert (existsb (fun c => Qle_bool low c) confidence = true) as ->.
  { apply existsb_exists. apply existsb_exists in Habove as (c & Hin & Hc).
    exists c. split; [exact Hin|]. apply Qle_bool_iff. apply Qle_bool_iff in Hc.
    eapply Qle_trans; eassumption. }
  intros [= <- <-]. reflexivity.
Qed.


Lemma handle_detection_recorded (self self' : CanAI) (t : Q) (confidence : list Q)
    (queue : list Frame) (spawned : list Task) :
  handle_detection self t confidence queue = inr (self', spawned) ->
  recorded_detection self = false ->
  recorded_detection self' = false.
Proof.
  unfold handle_detection.
  destruct (np_any_ge confidence _) as [e|above]; simpl; [discriminate|].
  destruct (above && negb (recording_in_progress self)).
  2:{ now intros [= <- <-]. }
  destruct (getitem (config self) "pre_event_seconds") as [e|pre]; simpl; [discriminate|].
  destruct (py_lt pre _) as [e|elapsed]; simpl; [discriminate|].
  destruct elapsed.
  { now intros [= <- <-]. }
  destruct (np_any_ge confidence _) as [e|armed]; simpl; [discriminate|].
  destruct armed.
  { now intros [= <- <-]. }
  destruct (np_all_lt confidence _) as [e|quiet]; simpl; [discriminate|].
  destruct quiet; now intros [= <- <-].
Qed.

Lemma run_events_recorded (evs : list event) :
  forall sys sys',
    recorded_detection (app sys) = false ->
    run_events sys evs = inr sys' ->
    recorded_detection (app sys') = false.
Proof.
  induction evs as [|ev evs IH]; intros sys sys' Hrec; simpl.
  - now intros [= <-].
  - destruct (step sys ev) as [e|sys1] eqn:Hstep; simpl; [discriminate|].
    apply IH. destruct ev as [t confidence queue|]; simpl in Hstep.
    + destruct (handle_detection (app sys) t confidence queue) as [e|[self spawned]] eqn:Hhd;
        simpl in Hstep; [discriminate|].
      injection Hstep as <-. simpl.
      eapply handle_detection_recorded; eassumption.
    + destruct (running sys); injection Hstep as <-; exact Hrec.
Qed.

(** With a number under [pre_event_seconds] and numbers for the two
    thresholds, a call returns. *)
Lemma handle_detection_returns (self : CanAI) (t p high low : Q)
    (confidence : list Q) (queue : list Frame) :
  config self !! "pre_event_seconds" = Some (PNum p) ->
  dict_get (config self) "detection_threshold" (PNum (7 # 10)) = PNum high ->
  dict_get (config self) "low_detection_threshold" (PNum (3 # 10)) = PNum low ->
  exists self' spawned,
    handle_detection self t confidence queue = inr (self', spawned).
Proof.
  intros Hp Hhigh Hlow. unfold handle_detection, getitem.
  rewrite Hhigh, Hlow, Hp. simpl.
  destruct (_ && _); [|eauto].
  destruct (Qlt_bool p _); [eauto|].
  destruct (existsb _ confidence); [eauto|].
  destruct (forallb _ confidence); eauto.
Qed.



(** C3. A frame whose confidence array (here [0.5]) reaches the low
    threshold 0.3 and stays below the high threshold 0.7, handled at clock
    reading 100 by a freshly built orchestrator, leaves the time of the
    last detection at 0: the call returns the object as it was. *)
Theorem armed_frame_leaves_detection_time :
  np_any_ge [(1 # 2)%Q]
    (dict_get (config sample_app) "low_detection_threshold" (PNum (3 # 10)))
    = inr true /\
  np_any_ge [(1 # 2)%Q]
    (dict_get (config sample_app) "detection_threshold" (PNum (7 # 10)))
    = inr false /\
  init sample_config 0 = inr sample_app /\
  handle_detection sample_app 100 [(1 # 2)%Q] [sample_frame] = inr (sample_app, []) /\
  last_detection_time sample_app = 0%Q.
Proof.
  split; [|split; [|split; [|split]]].
  - vm_compute. reflexivity.
  - vm_compute. reflexivity.
  - vm_compute. reflexivity.
  - apply (handle_detection_below_high sample_app 100 [(1 # 2)%Q] [sample_frame] (7 # 10)).
    + vm_compute. reflexivity.
    + vm_compute. reflexivity.
  - reflexivity.
Qed.

(** ** The pre-event buffer *)

Lemma seconds_monotone : monotone seconds.
Proof. intros n m H. unfold seconds, Qle. simpl. lia. Qed.

Lemma tenths_monotone : monotone tenths.
Proof. intros n m H. unfold tenths, Qle. simpl. lia. Qed.

Section BufferProperties.

Variable time : nat -> Q.

(** What the eviction loop returns: it has removed the same number of
    heads from both sequences, and the head that stays, if any, was
    found at most two seconds old at the last reading of the clock. *)
Lemma maintain_buffer_spec (ts : list Q) :
  forall (q : list Frame) (n : nat) q' ts' n',
    maintain_buffer time ts q n = Some (q', ts', n') ->
    exists k,
      ts' = drop k ts /\ q' = drop k q /\ (k <= length q)%nat /\ (n <= n')%nat /\
      forall t0 rest, ts' = t0 :: rest ->
        exists m, n' = S m /\ (n <= m)%nat /\ (time m - t0 <= 2)%Q.
Proof.
  induction ts as [|t0 ts IH]; intros q n q' ts' n' H; simpl in H.
  - injection H as <- <- <-. exists 0%nat. repeat split; try lia. discriminate.
  - destruct (Qlt_bool 2 (time n - t0)) eqn:E.
    + destruct q as [|x q0]; simpl in H; [discriminate|].
      destruct (IH _ _ _ _ _ H) as (k & -> & -> & Hk & Hn & Hhead).
      exists (S k). simpl. repeat split; try lia.
      intros t1 rest Heq. destruct (Hhead t1 rest Heq) as (m & -> & Hm & Hw).
      exists m. repeat split; [lia|exact Hw].
    + injection H as <- <- <-. exists 0%nat. simpl. repeat split; try lia.
      intros t1 rest [= <- <-]. exists n. repeat split; [lia|].
      now apply Qlt_bool_false.
Qed.

(** The loop returns whenever the buffer holds as many frames as there
    are timestamps. *)
Lemma maintain_buffer_returns (ts : list Q) :
  forall (q : list Frame) (n : nat),
    (length ts <= length q)%nat -> is_Some (maintain_buffer time ts q n).
Proof.
  induction ts as [|t0 ts IH]; intros q n Hlen; simpl; [eauto|].
  destruct (Qlt_bool 2 (time n - t0)); [|eauto].
  destruct q as [|x q0]; simpl in *; [lia|]. apply IH. lia.
Qed.

Lemma add_frame_inv (self self' : VideoStreamHandler) (frame : Frame) :
  add_frame time self frame = Some self' ->
  exists k j n,
    (k = j \/
     k = S j /\ queue_full (maxsize self) (drop j (frame_buffer self)) = true) /\
    (k <= length (frame_buffer self))%nat /\
    frame_buffer self' = drop k (frame_buffer self) ++ [frame] /\
    maxsize self' = maxsize self /\
    queue_full (maxsize self) (drop k (frame_buffer self)) = false /\
    frame_timestamps self' = drop j (frame_timestamps self) ++ [time n] /\
    clock self' = S n /\ (clock self <= n)%nat /\
    current_frame self' = Some frame /\
    forall t0 rest, drop j (frame_timestamps self) = t0 :: rest ->
      exists m, n = S m /\ (clock self <= m)%nat /\ (time m - t0 <= 2)%Q.
Proof.
  unfold add_frame. intros H.
  destruct (maintain_buffer time (frame_timestamps self) (frame_buffer self) (clock self))
    as [[[q ts] n]|] eqn:Hm; simpl in H; [|discriminate].
  destruct (maintain_buffer_spec _ _ _ _ _ _ Hm) as (j & -> & -> & Hj & Hn & Hhead).
  destruct (queue_full (maxsize self) (drop j (frame_buffer self))) eqn:Hfull.
  - destruct (drop j (frame_buffer self)) as [|x q0] eqn:Hdrop; simpl in H; [discriminate|].
    unfold queue_put in H.
    destruct (queue_full (maxsize self) q0) eqn:Hfull'; simpl in H; [discriminate|].
    injection H as <-. simpl.
    assert (drop (S j) (frame_buffer self) = q0) as Hq0.
    { replace (S j) with (j + 1)%nat by lia. rewrite <- drop_drop, Hdrop. reflexivity. }
    exists (S j), j, n. rewrite Hq0.
    split; [right; split; [reflexivity|rewrite Hdrop; exact Hfull]|].
    repeat split; try assumption.
    assert (length (drop j (frame_buffer self)) = S (length q0)) as Hl
      by (rewrite Hdrop; reflexivity).
    rewrite length_drop in Hl. lia.
  - simpl in H. unfold queue_put in H. rewrite Hfull in H. simpl in H.
    injection H as <-. simpl.
    exists j, j, n. split; [now left|]. repeat split; assumption.
Qed.

(** A call returns when the two sequences have the same length and the
    buffer is within its capacity. *)
Lemma add_frame_returns (self : VideoStreamHandler) (frame : Frame) :
  length (frame_timestamps self) = length (frame_buffer self) ->
  ((0 < maxsize self)%Z -> (Z.of_nat (length (frame_buffer self)) <= maxsize self)%Z) ->
  is_Some (add_frame time self frame).
Proof.
  intros Hpar Hcap. unfold add_frame.
  destruct (maintain_buffer_returns (frame_timestamps self) (frame_buffer self) (clock self))
    as [[[q ts] n] Hm]; [lia|].
  rewrite Hm. simpl.
  destruct (maintain_buffer_spec _ _ _ _ _ _ Hm) as (j & -> & -> & Hj & _).
  unfold queue_put.
  destruct (queue_full (maxsize self) (drop j (frame_buffer self))) eqn:Hfull; simpl.
  - unfold queue_full in Hfull. apply andb_true_iff in Hfull as [Hpos Hge].
    apply Z.ltb_lt in Hpos. apply Z.leb_le in Hge. specialize (Hcap Hpos).
    destruct (drop j (frame_buffer self)) as [|x q0] eqn:Hdrop; simpl.
    + simpl in Hge. lia.
    + assert (length (drop j (frame_buffer self)) = S (length q0)) as Hl
        by (rewrite Hdrop; reflexivity).
      rewrite length_drop in Hl.
      replace (queue_full (maxsize self) q0) with false; [simpl; eauto|].
      symmetry. unfold queue_full. apply andb_false_iff. right.
      apply Z.leb_gt. lia.
  - rewrite Hfull. simpl. eauto.
Qed.



(** While the queue is never found full the two sequences keep the same
    length: so it is for an unbounded queue. *)
Lemma add_frame_parallel_unbounded (self self' : VideoStreamHandler) (frame : Frame) :
  (maxsize self <= 0)%Z ->
  length (frame_timestamps self) = length (frame_buffer self) ->
  add_frame time self frame = Some self' ->
  length (frame_timestamps self') = length (frame_buffer self').
Proof.
  intros Hmax Hpar H.
  destruct (add_frame_inv _ _ _ H) as (k & j & n & Hkj & _ & -> & _ & _ & -> & _).
  destruct Hkj as [->|[_ Hfull]].
  - rewrite !length_app, !length_drop, Hpar. reflexivity.
  - unfold queue_full in Hfull. apply andb_true_iff in Hfull as [Hpos _].
    apply Z.ltb_lt in Hpos. lia.
Qed.



End BufferProperties.


Section WindowProperties.

Variable time : nat -> Q.
Hypothesis time_monotone : monotone time.



End WindowProperties.








(** C6. With capacity 1, two frames given a tenth of a second apart: the
    second call takes the first frame out of the full queue and leaves its
    timestamp in the list.  The buffer then holds one frame and the list
    two timestamps, and the frame captured at 0.2 is paired with the
    timestamp 0.0. *)
Theorem capacity_eviction_keeps_timestamp :
  add_frames tenths (new_handler 1) [sample_frame; other_frame] = Some skewed_handler /\
  length (frame_buffer skewed_handler) = 1%nat /\
  length (frame_timestamps skewed_handler) = 2%nat /\
  frame_timestamps skewed_handler = [tenths 0; tenths 2] /\
  get_timed_frames skewed_handler = [(other_frame, tenths 0)].
Proof.
  repeat split; vm_compute; reflexivity.
Qed.

(** From that state the next call, made once both timestamps are older
    than two seconds, waits for ever on the empty queue. *)
Lemma add_frame_blocks_after_skew :
  add_frame stalled skewed_handler sample_frame = None.
Proof. vm_compute. reflexivity. Qed.

(** ** The recorder *)

Lemma tidy_silent {A} (m : M A) :
  (forall w r w', m w = (r, w') ->
     trace w' = trace w /\ writer_bound w' = writer_bound w) ->
  tidy m.
Proof.
  intros H w r w' Hm. destruct (H _ _ _ Hm) as [Ht Hb].
  exists []. rewrite app_nil_r, orb_false_r. auto.
Qed.

Lemma tidy_ret {A} (a : A) : tidy (ret a).
Proof. apply tidy_silent. intros w r w' [= <- <-]. auto. Qed.

Lemma tidy_raise {A} (e : exn) : tidy (@raise A e).
Proof. apply tidy_silent. intros w r w' [= <- <-]. auto. Qed.

Lemma tidy_diverge {A} : tidy (@diverge A).
Proof. apply tidy_silent. intros w r w' [= <- <-]. auto. Qed.

Lemma tidy_emit (e : effect) :
  is_release e = false -> is_open e = false -> tidy (emit e).
Proof.
  intros Hr Ho w r w' [= <- <-]. exists [e]. simpl.
  rewrite Hr, Ho, !orb_false_r. auto.
Qed.

Lemma tidy_bind {A B} (m : M A) (k : A -> M B) :
  tidy m -> (forall a, tidy (k a)) -> tidy (bind m k).
Proof.
  intros Hm Hk w r w' H. unfold bind in H.
  destruct (m w) as [[a|e|] w1] eqn:E.
  - destruct (Hm _ _ _ E) as (a1 & Ht1 & Hr1 & Hb1).
    destruct (Hk a _ _ _ H) as (a2 & Ht2 & Hr2 & Hb2).
    exists (a1 ++ a2). rewrite Ht2, Ht1, Hb2, Hb1, !existsb_app, Hr1, Hr2.
    rewrite app_assoc, orb_assoc. auto.
  - injection H as <- <-. exact (Hm _ _ _ E).
  - injection H as <- <-. exact (Hm _ _ _ E).
Qed.

Lemma tidy_try_except {A} (body : M A) (handler : exn -> M A) :
  tidy body -> (forall e, tidy (handler e)) -> tidy (try_except body handler).
Proof.
  intros Hm Hk w r w' H. unfold try_except in H.
  destruct (body w) as [[a|e|] w1] eqn:E.
  - injection H as <- <-. exact (Hm _ _ _ E).
  - destruct (Hm _ _ _ E) as (a1 & Ht1 & Hr1 & Hb1).
    destruct (Hk e _ _ _ H) as (a2 & Ht2 & Hr2 & Hb2).
    exists (a1 ++ a2). rewrite Ht2, Ht1, Hb2, Hb1, !existsb_app, Hr1, Hr2.
    rewrite app_assoc, orb_assoc. auto.
  - injection H as <- <-. exact (Hm _ _ _ E).
Qed.

Section RecorderProperties.

Variable env : Env.
Variable self : EventClipRecorder.

Lemma tidy_read_clock : tidy (read_clock env).
Proof. apply tidy_silent. intros w r w' [= <- <-]. auto. Qed.

Lemma tidy_fetch : tidy (fetch env).
Proof. apply tidy_silent. intros w r w' [= <- <-]. auto. Qed.

Lemma tidy_makedirs (dir : string) : tidy (makedirs env dir).
Proof.
  unfold makedirs. destruct (makedirs_raises env).
  - apply tidy_raise.
  - now apply tidy_emit.
Qed.

Lemma tidy_open_writer (path fourcc : string) (rate : Q) (width height : nat) :
  tidy (open_writer env path fourcc rate width height).
Proof.
  unfold open_writer. destruct (writer_raises env); [apply tidy_raise|].
  intros w r w' [= <- <-]. simpl.
  exists [OpenWriter path fourcc rate width height]. simpl.
  rewrite orb_true_r. auto.
Qed.

Lemma tidy_write (frame : Frame) : tidy (write env frame).
Proof.
  intros w r w'. unfold write. destruct (write_raises env (writes w)).
  - intros [= <- <-]. exists []. simpl. rewrite app_nil_r, orb_false_r. auto.
  - intros [= <- <-]. exists [Write frame]. simpl. rewrite orb_false_r. auto.
Qed.

Lemma tidy_sleep (seconds : Q) : tidy (sleep seconds).
Proof.
  unfold sleep. destruct (Qlt_bool seconds 0).
  - apply tidy_raise.
  - now apply tidy_emit.
Qed.

Lemma tidy_true_div (a b : Q) : tidy (true_div a b).
Proof.
  unfold true_div. destruct (Qeq_bool b 0); [apply tidy_raise|apply tidy_ret].
Qed.

Lemma tidy_write_each (frames : list Frame) : tidy (write_each env frames).
Proof.
  induction frames as [|f rest IH]; simpl.
  - apply tidy_ret.
  - apply tidy_bind; [apply tidy_write|]. intros _. exact IH.
Qed.

Lemma tidy_post_event_loop (fuel : nat) (start_time : Q) :
  tidy (post_event_loop env self fuel start_time).
Proof.
  induction fuel as [|fuel IH]; simpl.
  - apply tidy_diverge.
  - apply tidy_bind; [apply tidy_read_clock|]. intros now.
    destruct (Qlt_bool _ _); [|apply tidy_ret].
    apply tidy_bind; [apply tidy_fetch|]. intros frame.
    apply tidy_bind.
    { destruct frame; [apply tidy_write|apply tidy_ret]. }
    intros _. apply tidy_bind; [apply tidy_true_div|]. intros pause.
    apply tidy_bind; [apply tidy_sleep|]. intros _. exact IH.
Qed.

Lemma tidy_height_width (frame : Frame) : tidy (height_width frame).
Proof.
  unfold height_width.
  destruct (firstn 2 (shape frame)) as [|h [|w [|? ?]]];
    first [apply tidy_raise|apply tidy_ret].
Qed.

Lemma tidy_record_clip_try (fuel : nat) (pre_event_frames : list Frame) :
  tidy (record_clip_try env self fuel pre_event_frames).
Proof.
  unfold record_clip_try.
  apply tidy_bind; [apply tidy_makedirs|]. intros _.
  destruct pre_event_frames as [|first rest]; [now apply tidy_emit|].
  apply tidy_bind; [apply tidy_height_width|]. intros hw.
  apply tidy_bind; [apply tidy_open_writer|]. intros _.
  apply tidy_bind; [apply tidy_write_each|]. intros _.
  apply tidy_bind; [apply tidy_read_clock|]. intros start_time.
  apply tidy_bind; [apply tidy_post_event_loop|]. intros _.
  now apply tidy_emit.
Qed.

(** A call of [record_clip] that is over has returned normally, and if it
    opened a writer then releasing it was the last thing it did, and it
    did so once. *)
Lemma record_clip_releases (fuel : nat) (pre_event_frames : list Frame)
    (w w' : World) (r : outcome unit) :
  record_clip env self fuel pre_event_frames w = (r, w') ->
  r <> Running ->
  r = Returned tt /\
  exists added,
    trace w' = trace w ++ added /\
    if existsb is_open added
    then exists before, added = before ++ [Release] /\
                        existsb is_release before = false
    else existsb is_release added = false.
Proof.
  unfold record_clip, try_finally. intros H Hover.
  set (w0 := mkWorld (ticks w) (writes w) (fetches w) (trace w) false) in H.
  destruct (try_except (record_clip_try env self fuel pre_event_frames) _ w0)
    as [r1 w1] eqn:E.
  assert (tidy (try_except (record_clip_try env self fuel pre_event_frames)
                 (fun e => emit (Log ERROR ("Error recording video clip: " ++ exn_text env e)))))
    as Htidy.
  { apply tidy_try_except; [apply tidy_record_clip_try|]. intros e. now apply tidy_emit. }
  destruct (Htidy _ _ _ E) as (added & Ht & Hrel & Hbound). simpl in Ht, Hbound.
  assert (r1 = Running \/ r1 = Returned tt) as [->| ->].
  { unfold try_except in E.
    destruct (record_clip_try env self fuel pre_event_frames w0) as [[[]|e|] w2];
      injection E as <- <-; auto. }
  { injection H as <- <-. congruence. }
  unfold release_if_bound in H. rewrite Hbound in H.
  destruct (existsb is_open added) eqn:Hopen; simpl in H.
  - injection H as <- <-. split; [reflexivity|]. simpl.
    exists (added ++ [Release]). rewrite Ht, <- app_assoc. split; [reflexivity|].
    rewrite existsb_app, Hopen. simpl. exists added. auto.
  - injection H as <- <-. split; [reflexivity|].
    exists added. rewrite Hopen. auto.
Qed.

End RecorderProperties.

(** C7 (as amended). A call of [record_clip] with an empty list of
    pre-event frames returns normally whatever the collaborators do.  It
    makes sure the output directory exists and logs the warning (if
    creating the directory fails, the error is logged instead), and it
    neither opens a writer, nor writes a frame, nor releases anything.
    The older recorder logs its message and does nothing else. *)
Theorem record_clip_without_frames (env : Env) (self : EventClipRecorder)
    (older : Legacy.EventClipRecorder) (fuel : nat) (w : World) :
  (exists w' added,
     record_clip env self fuel [] w = (Returned tt, w') /\
     trace w' = trace w ++ added /\
     added = (if makedirs_raises env
              then [Log ERROR ("Error recording video clip: " ++ exn_text env OSError)]
              else [Makedirs (output_dir self);
                    Log WARNING "No pre-event frames available"]) /\
     existsb is_sink_effect added = false /\
     writes w' = writes w) /\
  (exists w',
     Legacy.record_clip env older [] w = (Returned tt, w') /\
     trace w' = trace w ++ [Log ERROR "No pre-event frames to record."] /\
     writes w' = writes w).
Proof.
  split.
  - unfold record_clip, try_finally, try_except, record_clip_try, bind, makedirs,
      release_if_bound.
    destruct (makedirs_raises env); simpl.
    + eexists. eexists. repeat split; reflexivity.
    + eexists. eexists. split; [reflexivity|]. simpl.
      rewrite <- app_assoc. repeat split; reflexivity.
  - eexists. repeat split; reflexivity.
Qed.

(** The call is not without effect apart from the warning: the output
    directory is created before the list is looked at. *)
Lemma record_clip_without_frames_makes_directory :
  exists w',
    record_clip slow_env sample_recorder 0 [] fresh_world = (Returned tt, w') /\
    trace w' = [Makedirs "./clips/"; Log WARNING "No pre-event frames available"] /\
    ~ (exists msg, trace w' = [Log WARNING msg]).
Proof.
  eexists. split; [vm_compute; reflexivity|]. split; [reflexivity|].
  intros [msg H]. discriminate.
Qed.

(** C8. The older recorder, with a writer that opens and whose first
    [write] raises: the exception leaves [record_clip], a writer has been
    opened and [release] has not been called.  The same happens, whatever
    [write] does, when the frame rate is zero, the writer reports itself
    open all the same, and the division that computes the frame interval
    raises. *)
Theorem legacy_record_clip_leaves_writer_open :
  writer_opens failing_env = true /\
  (exists w',
     Legacy.record_clip failing_env legacy_recorder [sample_frame] fresh_world
       = (Raised CvError, w') /\
     existsb is_open (trace w') = true /\
     existsb is_release (trace w') = false) /\
  (exists w',
     Legacy.record_clip slow_env zero_rate_recorder [sample_frame] fresh_world
       = (Raised ZeroDivisionError, w') /\
     existsb is_open (trace w') = true /\
     existsb is_release (trace w') = false).
Proof.
  split; [reflexivity|]. split.
  - eexists. split; [vm_compute; reflexivity|]. split; reflexivity.
  - eexists. split; [vm_compute; reflexivity|]. split; reflexivity.
Qed.

(** On the same input the recorder of [canai/] logs the error, releases
    the writer and returns. *)
Lemma record_clip_releases_on_write_error (fuel : nat) :
  exists w' path,
    record_clip failing_env sample_recorder fuel [sample_frame] fresh_world
      = (Returned tt, w') /\
    trace w' = [Makedirs "./clips/"; OpenWriter path "mp4v" 10 2 2;
                Log ERROR "Error recording video clip: cv2.error"; Release].
Proof.
  eexists. eexists. split; [vm_compute; reflexivity|]. reflexivity.
Qed.

(** *** Runs in which nothing fails *)

Lemma written_app (t1 t2 : list effect) : written (t1 ++ t2) = written t1 ++ written t2.
Proof. unfold written. apply omap_app. Qed.

















Section NominalRuns.

Variable env : Env.
Variable self : EventClipRecorder.
Hypothesis writes_succeed : forall i, write_raises env i = false.
Hypothesis rate_positive : (0 < fps self)%Q.





End NominalRuns.

Section LegacyNominalRuns.

Variable env : Env.
Hypothesis writes_succeed : forall i, write_raises env i = false.




End LegacyNominalRuns.




(** ** The detector *)

Section DetectProperties.

Variable self : AIDetector.

Lemma detect_rows_flag (detections : list (list Q)) :
  forall output_frame detected detected' output_frame',
    detect_rows self detections output_frame detected = inr (detected', output_frame') ->
    detected' = true ->
    detected = true \/ Exists (meets_threshold self) detections.
Proof.
  induction detections as [|det rest IH]; intros out d d' out' H Hd'; simpl in H.
  - injection H as <- <-. now left.
  - destruct det as [|x1 [|y1 [|x2 [|y2 [|conf [|cls [|? ?]]]]]]]; try discriminate.
    destruct (Qlt_bool conf (detection_threshold self)) eqn:E.
    + destruct (IH _ _ _ _ H Hd') as [Hd|Hex]; [now left|].
      right. now apply Exists_cons_tl.
    + right. apply Exists_cons_hd. exists conf. split; [reflexivity|].
      now apply Qlt_bool_false.
Qed.

Lemma detect_rows_quiet (detections : list (list Q)) :
  Forall (fun det => length det = 6%nat /\ ~ meets_threshold self det) detections ->
  forall output_frame detected,
    detect_rows self detections output_frame detected = inr (detected, output_frame).
Proof.
  induction 1 as [|det rest [Hlen Hlow] _ IH]; intros out d; simpl; [reflexivity|].
  destruct det as [|x1 [|y1 [|x2 [|y2 [|conf [|cls [|? ?]]]]]]]; try discriminate.
  destruct (Qlt_bool conf (detection_threshold self)) eqn:E; [apply IH|].
  exfalso. apply Hlow. exists conf. split; [reflexivity|]. now apply Qlt_bool_false.
Qed.

End DetectProperties.

(** C10. [detect] always returns a pair and never raises.  When a step
    inside it raises, the pair is [(False, frame)] with the frame it was
    given.  When it answers [True], the model has returned a row whose
    confidence is not below the threshold; so when no row meets the
    threshold the answer is [False]. *)
Theorem detect_never_raises (self : AIDetector) (frame : Frame) :
  (exists detected output_frame, detect self frame = inr (detected, output_frame)) /\
  (forall e, detect_try self frame = inl e -> detect self frame = inr (false, frame)) /\
  (forall output_frame,
     detect self frame = inr (true, output_frame) ->
     exists frame_rgb resized detections,
       cvtColor (vision self) frame = inr frame_rgb /\
       resize (vision self) frame_rgb 640 640 = inr resized /\
       infer (vision self) resized = inr detections /\
       Exists (meets_threshold self) detections) /\
  (forall frame_rgb resized detections,
     cvtColor (vision self) frame = inr frame_rgb ->
     resize (vision self) frame_rgb 640 640 = inr resized ->
     infer (vision self) resized = inr detections ->
     Forall (fun det => ~ meets_threshold self det) detections ->
     exists output_frame, detect self frame = inr (false, output_frame)).
Proof.
  assert (forall output_frame,
            detect self frame = inr (true, output_frame) ->
            exists frame_rgb resized detections,
              cvtColor (vision self) frame = inr frame_rgb /\
              resize (vision self) frame_rgb 640 640 = inr resized /\
              infer (vision self) resized = inr detections /\
              Exists (meets_threshold self) detections) as Htrue.
  { intros out. unfold detect, detect_try.
    destruct (cvtColor (vision self) frame) as [e|frame_rgb] eqn:Hc;
      simpl; [discriminate|].
    destruct (resize (vision self) frame_rgb 640 640) as [e|resized] eqn:Hr;
      simpl; [discriminate|].
    destruct (infer (vision self) resized) as [e|detections] eqn:Hi;
      simpl; [discriminate|].
    destruct (detect_rows self detections frame false) as [e|[d out']] eqn:Hrows;
      [discriminate|].
    intros [= -> ->].
    destruct (detect_rows_flag self detections _ _ _ _ Hrows eq_refl) as [Hd|Hex];
      [discriminate|].
    exists frame_rgb, resized, detections. repeat split; auto. }
  split; [|split; [|split]].
  - unfold detect. destruct (detect_try self frame) as [e|[d out]]; eauto.
  - intros e He. unfold detect. now rewrite He.
  - exact Htrue.
  - intros frame_rgb resized detections Hc Hr Hi Hall.
    assert (exists d out, detect self frame = inr (d, out)) as (d & out & Hdet).
    { unfold detect. destruct (detect_try self frame) as [e|[d out]]; eauto. }
    destruct d; [|eauto].
    destruct (Htrue out Hdet) as (a & b & dets & Hc' & Hr' & Hi' & Hex).
    rewrite Hc in Hc'. injection Hc' as <-.
    rewrite Hr in Hr'. injection Hr' as <-.
    rewrite Hi in Hi'. injection Hi' as <-.
    exfalso. apply Exists_exists in Hex as (det & Hin & Hmeets).
    rewrite Forall_forall in Hall. exact (Hall det Hin Hmeets).
Qed.

Lemma detect_never_raises_witness :
  detect broken_detector sample_frame = inr (false, sample_frame) /\
  exists output_frame, detect quiet_detector sample_frame = inr (false, output_frame).
Proof.
  split.
  - apply (proj1 (proj2 (detect_never_raises broken_detector sample_frame)) CvError).
    reflexivity.
  - apply (proj2 (proj2 (proj2 (detect_never_raises quiet_detector sample_frame)))
             sample_frame sample_frame [[0; 0; 10; 10; 2 # 10; 0]%Q]).
    + reflexivity.
    + reflexivity.
    + reflexivity.
    + constructor; [|constructor].
      intros (conf & Hconf & Hle). injection Hconf as <-.
      vm_compute in Hle. apply Hle. reflexivity.
Defined.

(** ** More on the trigger *)

(** What a call does to the time of the last detection: it keeps it or
    sets it to the current time, and a call that starts a thread found
    the cooldown over. *)
Lemma handle_detection_time (self self' : CanAI) (t p : Q) (confidence : list Q)
    (queue : list Frame) (spawned : list Task) :
  config self !! "pre_event_seconds" = Some (PNum p) ->
  handle_detection self t confidence queue = inr (self', spawned) ->
  (spawned = [] /\
   (last_detection_time self' = last_detection_time self \/
    last_detection_time self' = t)) \/
  (spawned = [queue] /\ last_detection_time self' = t /\
   (p < t - last_detection_time self)%Q).
Proof.
  intros Hp. unfold handle_detection.
  destruct (np_any_ge confidence _) as [e|above]; simpl; [discriminate|].
  destruct (above && negb (recording_in_progress self)).
  2:{ intros [= <- <-]. left. auto. }
  unfold getitem. rewrite Hp. simpl.
  destruct (Qlt_bool p (t - last_detection_time self)) eqn:Hcool.
  { intros [= <- <-]. right. repeat split. now apply Qlt_bool_iff. }
  destruct (np_any_ge confidence _) as [e|armed]; simpl; [discriminate|].
  destruct armed.
  { intros [= <- <-]. left. auto. }
  destruct (np_all_lt confidence _) as [e|quiet]; simpl; [discriminate|].
  destruct quiet; intros [= <- <-]; left; auto.
Qed.

(** X1. The recorded flag is dead state: in every state the orchestrator
    reaches from construction, whatever frames it handles and whenever
    its recorder threads finish, [recorded_detection] is [False]. *)
Theorem recorded_detection_stays_false (cfg : gmap string pyval) (now : Q)
    (self : CanAI) (evs : list event) (sys : System) :
  init cfg now = inr self ->
  run_events (mkSystem self []) evs = inr sys ->
  recorded_detection (app sys) = false.
Proof.
  intros Hinit Hrun. apply (run_events_recorded evs (mkSystem self []) sys); [|exact Hrun].
  unfold init in Hinit. destruct (validate_config _); simpl in Hinit; [discriminate|].
  now injection Hinit as <-.
Qed.

Lemma recorded_detection_stays_false_witness :
  recorded_detection (app refreshed_system) = false.
Proof.
  apply (recorded_detection_stays_false short_config 0 short_app refresh_events
           refreshed_system).
  - vm_compute. reflexivity.
  - vm_compute. reflexivity.
Defined.

(** X2. Once the orchestrator has been built, handling frames never
    raises, provided the two thresholds, where the configuration gives
    them, are numbers: every sequence of frames and recorder completions
    is processed to its end. *)
Theorem run_events_never_raises (cfg : gmap string pyval) (now high low : Q)
    (self : CanAI) (evs : list event) :
  init cfg now = inr self ->
  dict_get cfg "detection_threshold" (PNum (7 # 10)) = PNum high ->
  dict_get cfg "low_detection_threshold" (PNum (3 # 10)) = PNum low ->
  exists sys, run_events (mkSystem self []) evs = inr sys.
Proof.
  intros Hinit Hhigh Hlow.
  unfold init in Hinit. simpl config in Hinit.
  destruct (validate_config cfg) as [e|[]] eqn:Hval; simpl in Hinit; [discriminate|].
  injection Hinit as <-.
  destruct (validate_config_inv cfg Hval) as (f & p & q & _ & Hp & _).
  assert (forall sys, config (app sys) = cfg ->
            exists sys', run_events sys evs = inr sys') as Hall.
  { induction evs as [|ev evs IH]; intros sys Hcfg; simpl; [eauto|].
    assert (exists sys1, step sys ev = inr sys1 /\ config (app sys1) = cfg)
      as (sys1 & -> & Hcfg1).
    { destruct ev as [t confidence queue|]; simpl.
      - destruct (handle_detection_returns (app sys) t p high low confidence queue)
          as (self' & spawned & Hhd); try (rewrite Hcfg; assumption).
        rewrite Hhd. simpl. eexists. split; [reflexivity|]. simpl.
        apply handle_detection_cases in Hhd as [Hc _]. congruence.
      - destruct (running sys); eexists; (split; [reflexivity|]); exact Hcfg. }
    simpl. apply IH. exact Hcfg1. }
  apply Hall. reflexivity.
Qed.

Lemma run_events_never_raises_witness :
  exists sys, run_events (mkSystem short_app []) refresh_events = inr sys.
Proof.
  apply (run_events_never_raises short_config 0 (7 # 10) (3 # 10)).
  - vm_compute. reflexivity.
  - vm_compute. reflexivity.
  - vm_compute. reflexivity.
Defined.

Lemma spaced_cons (gap a : Q) (ts : list Q) :
  Forall (fun b => gap < b - a)%Q ts -> spaced gap ts -> spaced gap (a :: ts).
Proof.
  intros Hall Hsp. destruct ts as [|b rest]; [exact I|].
  split; [|exact Hsp]. now inversion Hall.
Qed.

(** Along a run whose frame times never go back below the time of the last
    detection, every trigger comes more than the cooldown after that time,
    and the triggers are more than the cooldown apart. *)
Lemma trigger_times_spaced (p : Q) (evs : list event) :
  forall sys,
    config (app sys) !! "pre_event_seconds" = Some (PNum p) ->
    StronglySorted Qle (last_detection_time (app sys) :: frame_times evs) ->
    Forall (fun t => p < t - last_detection_time (app sys))%Q (trigger_times sys evs) /\
    spaced p (trigger_times sys evs).
Proof.
  induction evs as [|ev evs IH]; intros sys Hp Hsorted; simpl; [split; [constructor|exact I]|].
  destruct (step sys ev) as [e|sys1] eqn:Hstep; [split; [constructor|exact I]|].
  destruct ev as [t confidence queue|]; simpl in Hstep, Hsorted.
  - destruct (handle_detection (app sys) t confidence queue) as [e|[self spawned]] eqn:Hhd;
      simpl in Hstep; [discriminate|].
    injection Hstep as <-.
    pose proof (handle_detection_cases _ _ _ _ _ _ Hhd) as [Hcfg _].
    apply StronglySorted_inv in Hsorted as [Hsorted Hfrom].
    apply Forall_cons in Hfrom as [Hlt Hfrom].
    destruct (handle_detection_time _ _ _ _ _ _ _ Hp Hhd)
      as [[-> Hlast]|(-> & Hlast & Hcool)].
    + simpl.
      destruct (IH (mkSystem (set_frame_counter (frame_counter self + 1) self)
                             (running sys ++ []))) as [Hall Hsp].
      { simpl. congruence. }
      { simpl. destruct Hlast as [->| ->]; [|exact Hsorted].
        apply StronglySorted_inv in Hsorted as [Hs _]. constructor; assumption. }
      simpl in Hall. split; [|exact Hsp].
      eapply Forall_impl; [exact Hall|]. intros b Hb. simpl in Hb.
      destruct Hlast as [Hl|Hl]; rewrite Hl in Hb; [exact Hb|lra].
    + simpl.
      destruct (IH (mkSystem (set_frame_counter (frame_counter self + 1) self)
                             (running sys ++ [queue]))) as [Hall Hsp].
      { simpl. congruence. }
      { simpl. rewrite Hlast. exact Hsorted. }
      simpl in Hall. rewrite Hlast in Hall. split.
      * constructor; [exact Hcool|].
        eapply Forall_impl; [exact Hall|]. intros b Hb. simpl in Hb. lra.
      * apply spaced_cons; assumption.
  - assert (config (app sys1) = config (app sys) /\
            last_detection_time (app sys1) = last_detection_time (app sys)) as [Hc Hl].
    { destruct (running sys); injection Hstep as <-; split; reflexivity. }
    simpl. destruct (IH sys1) as [Hall Hsp].
    { congruence. }
    { rewrite Hl. exact Hsorted. }
    rewrite Hl in Hall. split; assumption.
Qed.

(** X3. Recordings are never triggered within the cooldown of each other:
    along every run from construction whose frame times are not negative
    and never decrease, any two successive triggers are more than
    [pre_event_seconds] apart. *)
Theorem triggers_are_spaced (cfg : gmap string pyval) (now p : Q)
    (self : CanAI) (evs : list event) :
  init cfg now = inr self ->
  cfg !! "pre_event_seconds" = Some (PNum p) ->
  StronglySorted Qle (0%Q :: frame_times evs) ->
  spaced p (trigger_times (mkSystem self []) evs).
Proof.
  intros Hinit Hp Hsorted.
  unfold init in Hinit. simpl config in Hinit.
  destruct (validate_config cfg); simpl in Hinit; [discriminate|].
  injection Hinit as <-.
  apply (trigger_times_spaced p evs (mkSystem (mkCanAI cfg false 0 now 0 false) [])).
  - exact Hp.
  - exact Hsorted.
Qed.

Lemma triggers_are_spaced_witness :
  trigger_times (mkSystem short_app []) spaced_events = [100%Q; 104%Q] /\
  spaced 2 (trigger_times (mkSystem short_app []) spaced_events).
Proof.
  split; [vm_compute; reflexivity|].
  apply (triggers_are_spaced short_config 0 2 short_app spaced_events).
  - vm_compute. reflexivity.
  - vm_compute. reflexivity.
  - repeat constructor; vm_compute; discriminate.
Defined.

(** ** More on the pre-event buffer *)

Lemma add_frames_snoc (time : nat -> Q) (frames : list Frame) (frame : Frame) :
  forall self,
    add_frames time self (frames ++ [frame])
    = match add_frames time self frames with
      | Some self' => add_frame time self' frame
      | None => None
      end.
Proof.
  induction frames as [|f rest IH]; intros self; simpl.
  - destruct (add_frame time self frame); reflexivity.
  - destruct (add_frame time self f) as [self1|]; simpl; [apply IH|reflexivity].
Qed.

(** X4. The live frame is the newest frame of the buffer: after calls of
    [add_frame] that returned, [get_current_frame] gives the frame of the
    last call, and that frame is the last one in the buffer. *)
Theorem current_frame_is_newest (time : nat -> Q) (self self' : VideoStreamHandler)
    (frames : list Frame) (frame : Frame) :
  add_frames time self (frames ++ [frame]) = Some self' ->
  get_current_frame self' = Some frame /\
  last (frame_buffer self') = Some frame.
Proof.
  rewrite add_frames_snoc.
  destruct (add_frames time self frames) as [self1|]; [|discriminate].
  intros H.
  destruct (add_frame_inv _ _ _ _ H) as (k & j & n & _ & _ & -> & _ & _ & _ & _ & _ & Hcur & _).
  split; [exact Hcur|]. apply last_snoc.
Qed.

Lemma current_frame_is_newest_witness :
  get_current_frame sample_handler = Some sample_frame /\
  last (frame_buffer sample_handler) = Some sample_frame.
Proof.
  apply (current_frame_is_newest seconds (new_handler 2) sample_handler
           [sample_frame; other_frame] sample_frame).
  vm_compute. reflexivity.
Defined.

(** X5. With a capacity of zero or less the queue is unbounded, and then
    [add_frame] never waits: every sequence of calls returns, nothing is
    removed for lack of room, and the buffer and the timestamp list have
    the same length. *)
Theorem unbounded_buffer_never_blocks (time : nat -> Q) (max_pre_frames : Z)
    (frames : list Frame) :
  (max_pre_frames <= 0)%Z ->
  exists self,
    add_frames time (new_handler max_pre_frames) frames = Some self /\
    length (frame_timestamps self) = length (frame_buffer self).
Proof.
  intros Hmax.
  assert (forall h, maxsize h = max_pre_frames ->
            length (frame_timestamps h) = length (frame_buffer h) ->
            exists self, add_frames time h frames = Some self /\
              length (frame_timestamps self) = length (frame_buffer self)) as Hall.
  { induction frames as [|f rest IH]; intros h Hm Hpar; simpl; [eauto|].
    destruct (add_frame_returns time h f Hpar) as [h1 H1]; [lia|].
    rewrite H1. simpl. apply IH.
    - destruct (add_frame_inv _ _ _ _ H1) as (k & j & n & _ & _ & _ & -> & _). exact Hm.
    - apply (add_frame_parallel_unbounded time h h1 f); [lia|exact Hpar|exact H1]. }
  apply Hall; reflexivity.
Qed.

Lemma unbounded_buffer_never_blocks_witness :
  exists self,
    add_frames seconds (new_handler 0) [sample_frame; other_frame] = Some self /\
    length (frame_timestamps self) = length (frame_buffer self).
Proof.
  apply (unbounded_buffer_never_blocks seconds 0 [sample_frame; other_frame]). lia.
Defined.

(** The eviction loop never returns when every timestamp has expired and
    there are more timestamps than frames. *)
Lemma maintain_buffer_blocks (time : nat -> Q) (ts : list Q) :
  forall (q : list Frame) (n : nat),
    (length q < length ts)%nat ->
    (forall t m, t ∈ ts -> (n <= m)%nat -> (2 < time m - t)%Q) ->
    maintain_buffer time ts q n = None.
Proof.
  induction ts as [|t0 ts IH]; intros q n Hlen Hold; simpl in *; [lia|].
  assert (Qlt_bool 2 (time n - t0) = true) as ->.
  { apply Qlt_bool_iff. apply Hold; [left|lia]. }
  destruct q as [|x q0]; simpl; [reflexivity|].
  apply IH.
  - simpl in Hlen. lia.
  - intros t m Ht Hm. apply Hold; [now right|lia].
Qed.

(** X6. Once the timestamp list is longer than the buffer, a pause is
    fatal: if every stored timestamp is more than two seconds old at all
    later readings of the clock, the next call of [add_frame] waits for
    ever in [frame_buffer.get()]. *)
Theorem add_frame_blocks_when_skewed (time : nat -> Q) (self : VideoStreamHandler)
    (frame : Frame) :
  (length (frame_buffer self) < length (frame_timestamps self))%nat ->
  (forall t m, t ∈ frame_timestamps self -> (clock self <= m)%nat ->
               (2 < time m - t)%Q) ->
  add_frame time self frame = None.
Proof.
  intros Hlen Hold. unfold add_frame.
  now rewrite (maintain_buffer_blocks time _ _ _ Hlen Hold).
Qed.

Lemma add_frame_blocks_when_skewed_witness :
  add_frames tenths (new_handler 1) [sample_frame; other_frame] = Some skewed_handler /\
  add_frame stalled skewed_handler sample_frame = None.
Proof.
  split; [vm_compute; reflexivity|].
  apply (add_frame_blocks_when_skewed stalled skewed_handler sample_frame).
  - simpl. lia.
  - intros t m Ht Hm. simpl in Hm.
    assert (stalled m = 10%Q) as ->.
    { unfold stalled. destruct (m <? 3)%nat eqn:E; [|reflexivity].
      apply Nat.ltb_lt in E. lia. }
    simpl in Ht. apply elem_of_cons in Ht as [->|Ht].
    + vm_compute. reflexivity.
    + apply elem_of_cons in Ht as [->|Ht]; [vm_compute; reflexivity|inversion Ht].
Defined.

(** The older buffer, started within its capacity, holds the newest
    frames up to that capacity. *)
Lemma legacy_buffer_frames_exact (cap : Z) (frames : list Frame) :
  (0 < cap)%Z ->
  forall q,
    (Z.of_nat (length q) <= cap)%Z ->
    Legacy.buffer_frames cap q frames
    = inr (drop (length (q ++ frames) - Z.to_nat cap) (q ++ frames)).
Proof.
  intros Hpos. induction frames as [|f rest IH]; intros q Hcap; simpl.
  - rewrite app_nil_r. replace (length q - Z.to_nat cap)%nat with 0%nat by lia.
    reflexivity.
  - unfold Legacy.buffer_frame, Legacy.put_nowait.
    destruct (queue_full cap q) eqn:Hfull.
    + unfold queue_full in Hfull. apply andb_true_iff in Hfull as [_ Hge].
      apply Z.leb_le in Hge.
      destruct q as [|x q0]; simpl in *; [lia|].
      replace (queue_full cap q0) with false.
      2:{ symmetry. unfold queue_full. apply andb_false_iff. right. apply Z.leb_gt. lia. }
      rewrite IH by (rewrite length_app; simpl; lia).
      f_equal. rewrite <- app_assoc. simpl.
      rewrite !length_app. simpl.
      replace (S (length q0 + S (length rest)) - Z.to_nat cap)%nat
        with (S (length q0 + S (length rest) - Z.to_nat cap))%nat by lia.
      reflexivity.
    + unfold queue_full in Hfull. apply andb_false_iff in Hfull as [Hfull|Hfull].
      { apply Z.ltb_ge in Hfull. lia. }
      apply Z.leb_gt in Hfull.
      rewrite IH by (rewrite length_app; simpl; lia).
      rewrite <- app_assoc. reflexivity.
Qed.

(** X7. The buffering step of the older handler keeps exactly the newest
    frames: with a positive capacity, after any number of frames the
    buffer holds the last [maxsize] of them, in order, or all of them when
    there are fewer; with a capacity of zero or less it holds them all. *)
Theorem legacy_buffer_holds_newest (cap : Z) (frames : list Frame) :
  Legacy.buffer_frames cap [] frames
  = inr (if (0 <? cap)%Z then drop (length frames - Z.to_nat cap) frames else frames).
Proof.
  destruct (0 <? cap)%Z eqn:Hpos.
  - apply Z.ltb_lt in Hpos.
    rewrite (legacy_buffer_frames_exact cap frames Hpos []) by (simpl; lia).
    reflexivity.
  - apply Z.ltb_ge in Hpos.
    assert (forall q, Legacy.buffer_frames cap q frames = inr (q ++ frames)) as Hall.
    { induction frames as [|f rest IH]; intros q; simpl.
      - now rewrite app_nil_r.
      - unfold Legacy.buffer_frame, Legacy.put_nowait.
        replace (queue_full cap q) with false.
        2:{ symmetry. unfold queue_full. apply andb_false_iff. left. apply Z.ltb_ge. lia. }
        rewrite IH, <- app_assoc. reflexivity. }
    apply Hall.
Qed.

(** ** More on the detector *)

(** X8. A frame on which nothing is detected comes back as it was given:
    when the conversion, the resizing and the model succeed and no row
    of six numbers meets the threshold, [detect] returns [False] with the
    input frame, nothing drawn on it. *)
Theorem detect_passes_quiet_frame_through (self : AIDetector) (frame frame_rgb resized : Frame)
    (detections : list (list Q)) :
  cvtColor (vision self) frame = inr frame_rgb ->
  resize (vision self) frame_rgb 640 640 = inr resized ->
  infer (vision self) resized = inr detections ->
  Forall (fun det => length det = 6%nat /\ ~ meets_threshold self det) detections ->
  detect self frame = inr (false, frame).
Proof.
  intros Hc Hr Hi Hquiet. unfold detect, detect_try.
  rewrite Hc. simpl. rewrite Hr. simpl. rewrite Hi. simpl.
  now rewrite (detect_rows_quiet self detections Hquiet).
Qed.

Lemma detect_passes_quiet_frame_through_witness :
  detect quiet_detector sample_frame = inr (false, sample_frame).
Proof.
  apply (detect_passes_quiet_frame_through quiet_detector sample_frame sample_frame
           sample_frame [[0; 0; 10; 10; 2 # 10; 0]%Q]).
  - reflexivity.
  - reflexivity.
  - reflexivity.
  - constructor; [|constructor]. split; [reflexivity|].
    intros (conf & Hconf & Hle). injection Hconf as <-.
    vm_compute in Hle. apply Hle. reflexivity.
Defined.

(** When the label lookup and the drawing never fail, the loop over rows
    of six numbers ends with the flag raised as soon as one row meets
    the threshold. *)
Lemma detect_rows_finds (self : AIDetector) (detections : list (list Q)) :
  (forall cls, exists label, names (vision self) cls = inr label) ->
  (forall f x1 y1 x2 y2 label conf,
     exists f', draw_detection (vision self) f x1 y1 x2 y2 label conf = inr f') ->
  Forall (fun det => length det = 6%nat) detections ->
  forall output_frame detected,
    exists detected' output_frame',
      detect_rows self detections output_frame detected = inr (detected', output_frame') /\
      (detected = true \/ Exists (meets_threshold self) detections -> detected' = true).
Proof.
  intros Hnames Hdraw Hall. induction Hall as [|det rest Hlen _ IH]; intros out d; simpl.
  - exists d, out. split; [reflexivity|]. intros [Hd|Hex]; [exact Hd|inversion Hex].
  - destruct det as [|x1 [|y1 [|x2 [|y2 [|conf [|cls [|? ?]]]]]]]; try discriminate.
    destruct (Qlt_bool conf (detection_threshold self)) eqn:E.
    + destruct (IH out d) as (d' & out' & Hrows & Hflag).
      exists d', out'. split; [exact Hrows|].
      intros [Hd|Hex]; [auto|]. apply Hflag.
      apply Exists_cons in Hex as [(c & Hc & Hle)|Hex]; [|now right].
      injection Hc as <-. apply Qlt_bool_iff in E. exfalso. exact (Qlt_not_le _ _ E Hle).
    + destruct (Hnames (py_int cls)) as [label ->]. simpl.
      destruct (Hdraw out (py_int x1) (py_int y1) (py_int x2) (py_int y2) label conf)
        as [out1 ->]. simpl.
      destruct (IH out1 true) as (d' & out' & Hrows & Hflag).
      exists d', out'. split; [exact Hrows|]. intros _. apply Hflag. now left.
Qed.

(** X9. [detect] answers [True] whenever a row meets the threshold and
    nothing fails: if the conversion, the resizing and the model succeed,
    every row has six numbers, and neither the label lookup nor the
    drawing raises, then a row whose confidence is not below the threshold
    makes the flag [True]. *)
Theorem detect_reports_detection (self : AIDetector) (frame frame_rgb resized : Frame)
    (detections : list (list Q)) :
  cvtColor (vision self) frame = inr frame_rgb ->
  resize (vision self) frame_rgb 640 640 = inr resized ->
  infer (vision self) resized = inr detections ->
  (forall cls, exists label, names (vision self) cls = inr label) ->
  (forall f x1 y1 x2 y2 label conf,
     exists f', draw_detection (vision self) f x1 y1 x2 y2 label conf = inr f') ->
  Forall (fun det => length det = 6%nat) detections ->
  Exists (meets_threshold self) detections ->
  exists output_frame, detect self frame = inr (true, output_frame).
Proof.
  intros Hc Hr Hi Hnames Hdraw Hall Hex. unfold detect, detect_try.
  rewrite Hc. simpl. rewrite Hr. simpl. rewrite Hi. simpl.
  destruct (detect_rows_finds self detections Hnames Hdraw Hall frame false)
    as (d & out & -> & Hflag).
  rewrite Hflag by now right. eauto.
Qed.

Lemma detect_reports_detection_witness :
  exists output_frame, detect keen_detector sample_frame = inr (true, output_frame).
Proof.
  apply (detect_reports_detection keen_detector sample_frame sample_frame sample_frame
           [[0; 0; 10; 10; 9 # 10; 0]%Q]).
  - reflexivity.
  - reflexivity.
  - reflexivity.
  - intros cls. simpl. eauto.
  - intros f x1 y1 x2 y2 label conf. simpl. eauto.
  - constructor; [reflexivity|constructor].
  - apply Exists_cons_hd. exists (9 # 10)%Q. split; [reflexivity|].
    vm_compute. discriminate.
Defined.

(** ** More on validation *)

(** X10. A frame rate that is not a number is not reported as a bad
    setting: when the three required keys are present and the value under
    [fps] is a string or [None], construction raises [TypeError], whatever
    the two durations are. *)
Theorem init_rejects_mistyped_fps (cfg : gmap string pyval) (now : Q) (v : pyval) :
  cfg !! "fps" = Some v ->
  is_Some (cfg !! "pre_event_seconds") ->
  is_Some (cfg !! "post_event_seconds") ->
  as_num v = inl TypeError ->
  init cfg now = inl TypeError.
Proof.
  intros Hf Hp Hq Hv. unfold init, validate_config. simpl config.
  rewrite check_required_ok.
  2:{ intros k [<-|[<-|[<-|[]]]]; eauto. }
  unfold getitem, fps_in_range, py_le. rewrite Hf. simpl. rewrite Hv. reflexivity.
Qed.

Lemma init_rejects_mistyped_fps_witness :
  init mistyped_config 0 = inl TypeError.
Proof.
  apply (init_rejects_mistyped_fps mistyped_config 0 (PStr "30")).
  - vm_compute. reflexivity.
  - vm_compute. eauto.
  - vm_compute. eauto.
  - reflexivity.
Defined.

(** ** The older orchestrator *)

Lemma oda_iteration_flag (recorded detected : bool) (queue : list Frame) :
  fst (oda_iteration recorded detected queue) = detected.
Proof. destruct recorded, detected; reflexivity. Qed.

(** X11. The older orchestrator starts a recording on every frame where
    the detector answers [True] after a frame where it answered [False]
    (or after the start), and on no other frame; it takes no account of
    recordings still running.  After each frame its flag is the
    detector's answer for that frame. *)
Theorem oda_records_on_rising_edges (recorded : bool) (frames : list (bool * list Frame)) :
  oda_run recorded frames
  = (default recorded (last (fst <$> frames)),
     omap (fun '(previous, (detected, queue)) =>
             if detected && negb previous then Some queue else None)
          (zip (recorded :: (fst <$> frames)) frames)).
Proof.
  revert recorded. induction frames as [|[detected queue] rest IH]; intros recorded;
    [reflexivity|].
  cbn [oda_run].
  pose proof (oda_iteration_flag recorded detected queue) as Hflag.
  destruct (oda_iteration recorded detected queue) as [recorded' spawned] eqn:Hit.
  simpl in Hflag. subst recorded'. rewrite IH. f_equal.
  - cbn [fmap list_fmap fst]. rewrite last_cons.
    destruct (last (fst <$> rest)); reflexivity.
  - cbn [fmap list_fmap zip zip_with omap list_omap fst].
    unfold oda_iteration in Hit.
    destruct detected, recorded; simpl in Hit; injection Hit as <-; reflexivity.
Qed.

(** ** The entry point *)



(** ** More on the recorder *)

(** X13. The recorder of [canai/] never lets an exception out and never
    leaves a writer behind: a call of [record_clip] that is over has
    returned normally, whatever failed inside it; if it opened a writer,
    releasing it was the last thing it did and it did so once; if it
    opened none, it released nothing. *)
Theorem record_clip_returns_and_releases (env : Env) (self : EventClipRecorder)
    (fuel : nat) (pre_event_frames : list Frame) (w w' : World) (r : outcome unit) :
  record_clip env self fuel pre_event_frames w = (r, w') ->
  r <> Running ->
  r = Returned tt /\
  exists added,
    trace w' = trace w ++ added /\
    if existsb is_open added
    then exists before, added = before ++ [Release] /\
                        existsb is_release before = false
    else existsb is_release added = false.
Proof. apply record_clip_releases. Qed.

Lemma record_clip_returns_and_releases_witness :
  exists w' added,
    record_clip failing_env sample_recorder 3 [sample_frame] fresh_world = (Returned tt, w') /\
    trace w' = trace fresh_world ++ added /\
    existsb is_open added = true /\
    exists before, added = before ++ [Release] /\ existsb is_release before = false.
Proof.
  destruct (record_clip failing_env sample_recorder 3 [sample_frame] fresh_world)
    as [r w'] eqn:Hrun.
  destruct (record_clip_returns_and_releases failing_env sample_recorder 3
              [sample_frame] fresh_world w' r Hrun) as [-> (added & Htrace & Hrel)].
  - vm_compute in Hrun. injection Hrun as <- _. discriminate.
  - exists w', added. split; [reflexivity|]. split; [exact Htrace|].
    vm_compute in Hrun. injection Hrun as <-. simpl in Htrace. subst added.
    split; [reflexivity|]. exact Hrel.
Defined.

Lemma post_event_loop_unfold (env : Env) (self : EventClipRecorder) (fuel : nat)
    (start_time : Q) (w : World) :
  post_event_loop env self (S fuel) start_time w
  = let w0 := mkWorld (S (ticks w)) (writes w) (fetches w) (trace w) (writer_bound w) in
    if Qlt_bool (env_time env (ticks w) - start_time)
                (post_event_seconds self)
    then match post_event_pass_body env self w0 with
         | (Returned _, w1) => post_event_loop env self fuel start_time w1
         | (Raised e, w1) => (Raised e, w1)
         | (Running, w1) => (Running, w1)
         end
    else (Returned tt, w0).
Proof.
  cbn [post_event_loop]. unfold bind at 1. unfold read_clock at 1. cbv zeta.
  destruct (Qlt_bool _ _); [|reflexivity].
  unfold post_event_pass_body, bind.
  destruct (fetch env _) as [[frame|e|] wa]; try reflexivity.
  destruct (match frame with Some f => write env f | None => ret tt end wa)
    as [[[]|e|] wb]; try reflexivity.
  destruct (true_div 1 (fps self) wb) as [[pause|e|] wc]; reflexivity.
Qed.

Lemma writes_at_most_weaken {A} (n m : nat) (c : M A) :
  (n <= m)%nat -> writes_at_most n c -> writes_at_most m c.
Proof.
  intros Hle Hc w r w' H. destruct (Hc _ _ _ H) as (Hr & Ht & Hl).
  repeat split; try assumption. lia.
Qed.

Lemma writes_none {A} (c : M A) :
  (forall w r w', c w = (r, w') ->
     r <> Running /\ ticks w' = ticks w /\ written (trace w') = written (trace w)) ->
  writes_at_most 0 c.
Proof.
  intros Hc w r w' H. destruct (Hc _ _ _ H) as (Hr & Ht & Hl).
  rewrite Hl. repeat split; try assumption. lia.
Qed.

Lemma writes_at_most_ret {A} (a : A) : writes_at_most 0 (ret a).
Proof. apply writes_none. intros w r w' [= <- <-]. repeat split. discriminate. Qed.

Lemma writes_at_most_raise {A} (e : exn) : writes_at_most 0 (@raise A e).
Proof. apply writes_none. intros w r w' [= <- <-]. repeat split. discriminate. Qed.

Lemma writes_at_most_emit (e : effect) :
  (forall f, e <> Write f) -> writes_at_most 0 (emit e).
Proof.
  intros Hne. apply writes_none. intros w r w' [= <- <-]. simpl.
  split; [discriminate|]. split; [reflexivity|].
  rewrite written_app. simpl. destruct e; try (now rewrite app_nil_r).
  exfalso. eapply Hne. reflexivity.
Qed.

Lemma writes_at_most_bind {A B} (n1 n2 : nat) (m : M A) (k : A -> M B) :
  writes_at_most n1 m -> (forall a, writes_at_most n2 (k a)) ->
  writes_at_most (n1 + n2) (bind m k).
Proof.
  intros Hm Hk w r w' H. unfold bind in H.
  destruct (m w) as [[a|e|] w1] eqn:E.
  - destruct (Hm _ _ _ E) as (_ & Ht1 & Hl1).
    destruct (Hk a _ _ _ H) as (Hr & Ht2 & Hl2).
    repeat split; [exact Hr|congruence|lia].
  - injection H as <- <-. destruct (Hm _ _ _ E) as (Hr & Ht & Hl).
    repeat split; [discriminate|exact Ht|lia].
  - destruct (Hm _ _ _ E) as (Hr & _). now exfalso.
Qed.

Section RecorderCounts.

Variable env : Env.
Variable self : EventClipRecorder.

Lemma writes_at_most_fetch : writes_at_most 0 (fetch env).
Proof. apply writes_none. intros w r w' [= <- <-]. repeat split. discriminate. Qed.

Lemma writes_at_most_makedirs (dir : string) : writes_at_most 0 (makedirs env dir).
Proof.
  unfold makedirs. destruct (makedirs_raises env).
  - apply writes_at_most_raise.
  - apply writes_at_most_emit. discriminate.
Qed.

Lemma writes_at_most_open_writer (path fourcc : string) (rate : Q) (width height : nat) :
  writes_at_most 0 (open_writer env path fourcc rate width height).
Proof.
  unfold open_writer. destruct (writer_raises env); [apply writes_at_most_raise|].
  apply writes_none. intros w r w' [= <- <-]. simpl.
  split; [discriminate|]. split; [reflexivity|].
  rewrite written_app. simpl. now rewrite app_nil_r.
Qed.

Lemma writes_at_most_write (frame : Frame) : writes_at_most 1 (write env frame).
Proof.
  intros w r w'. unfold write. destruct (write_raises env (writes w)).
  - intros [= <- <-]. simpl. repeat split; [discriminate|lia].
  - intros [= <- <-]. simpl. rewrite written_app, length_app. simpl.
    repeat split; [discriminate|lia].
Qed.

Lemma writes_at_most_sleep (seconds : Q) : writes_at_most 0 (sleep seconds).
Proof.
  unfold sleep. destruct (Qlt_bool seconds 0).
  - apply writes_at_most_raise.
  - apply writes_at_most_emit. discriminate.
Qed.

Lemma writes_at_most_true_div (a b : Q) : writes_at_most 0 (true_div a b).
Proof.
  unfold true_div. destruct (Qeq_bool b 0);
    [apply writes_at_most_raise|apply writes_at_most_ret].
Qed.

Lemma writes_at_most_height_width (frame : Frame) : writes_at_most 0 (height_width frame).
Proof.
  unfold height_width.
  destruct (firstn 2 (shape frame)) as [|h [|wd [|? ?]]];
    first [apply writes_at_most_raise|apply writes_at_most_ret].
Qed.

Lemma writes_at_most_write_each (frames : list Frame) :
  writes_at_most (length frames) (write_each env frames).
Proof.
  induction frames as [|f rest IH]; simpl.
  - apply writes_at_most_ret.
  - apply (writes_at_most_bind 1 (length rest)); [apply writes_at_most_write|].
    intros _. exact IH.
Qed.

Lemma writes_at_most_pass : writes_at_most 1 (post_event_pass_body env self).
Proof.
  unfold post_event_pass_body.
  apply (writes_at_most_bind 0 1); [apply writes_at_most_fetch|]. intros frame.
  apply (writes_at_most_bind 1 0).
  { destruct frame; [apply writes_at_most_write|].
    apply (writes_at_most_weaken 0 1); [lia|apply writes_at_most_ret]. }
  intros _. apply (writes_at_most_bind 0 0); [apply writes_at_most_true_div|].
  intros pause. apply writes_at_most_sleep.
Qed.

(** The loop is over within [k + 1] readings of the clock when the
    guard fails at the reading [k] from now. *)
Lemma post_event_loop_settles (start_time : Q) (k : nat) :
  forall fuel w,
    (k < fuel)%nat ->
    Qlt_bool (env_time env (ticks w + k) - start_time)
             (post_event_seconds self) = false ->
    fst (post_event_loop env self fuel start_time w) <> Running.
Proof.
  induction k as [|k IH]; intros fuel w Hfuel Hstop;
    (destruct fuel as [|fuel]; [lia|]); rewrite post_event_loop_unfold; cbv zeta.
  - rewrite Nat.add_0_r in Hstop. rewrite Hstop. simpl. intros H. discriminate H.
  - destruct (Qlt_bool (env_time env (ticks w) - start_time) _);
      [|simpl; intros H; discriminate H].
    destruct (post_event_pass_body env self _) as [[[]|e|] w1] eqn:Hpass.
    + destruct (writes_at_most_pass _ _ _ Hpass) as (_ & Ht & _). simpl in Ht.
      apply IH; [lia|]. rewrite Ht.
      replace (S (ticks w) + k)%nat with (ticks w + S k)%nat by lia. exact Hstop.
    + simpl. intros H. discriminate H.
    + destruct (writes_at_most_pass _ _ _ Hpass) as (Hr & _). now exfalso.
Qed.

End RecorderCounts.

Lemma bind_settles {A B} (m : M A) (k : A -> M B) (w : World) :
  fst (m w) <> Running ->
  (forall a w1, m w = (Returned a, w1) -> fst (k a w1) <> Running) ->
  fst (bind m k w) <> Running.
Proof.
  intros Hm Hk. unfold bind. destruct (m w) as [[a|e|] w1] eqn:E; simpl in *.
  - now apply Hk.
  - intros H. discriminate H.
  - exfalso. now apply Hm.
Qed.

Lemma steady_then_settles {A B} (n : nat) (m : M A) (k : A -> M B) (w : World) :
  writes_at_most n m ->
  (forall a w1, ticks w1 = ticks w -> fst (k a w1) <> Running) ->
  fst (bind m k w) <> Running.
Proof.
  intros Hm Hk. apply bind_settles.
  - destruct (m w) as [r w1] eqn:E. destruct (Hm _ _ _ E) as (Hr & _). exact Hr.
  - intros a w1 E. destruct (Hm _ _ _ E) as (_ & Ht & _). now apply Hk.
Qed.

(** X14. The recorder of [canai/] comes to an end: if the clock shows
    [post_event_seconds] or more since the start of the post-event phase
    at one of its readings, then [record_clip] returns normally, with
    whatever frames and failures, once it is given the passes up to that
    reading. *)
Theorem record_clip_terminates (env : Env) (self : EventClipRecorder)
    (pre_event_frames : list Frame) (w : World) (k fuel : nat) :
  (k < fuel)%nat ->
  Qlt_bool (env_time env (S (ticks w) + k) - env_time env (ticks w))
           (post_event_seconds self) = false ->
  exists w', record_clip env self fuel pre_event_frames w = (Returned tt, w').
Proof.
  intros Hfuel Hstop.
  destruct (record_clip env self fuel pre_event_frames w) as [r w'] eqn:Hrun.
  destruct (record_clip_releases env self fuel pre_event_frames w w' r Hrun) as [-> _];
    [|eauto].
  assert (fst (record_clip env self fuel pre_event_frames w) <> Running) as Hfst;
    [|rewrite Hrun in Hfst; exact Hfst].
  clear Hrun. unfold record_clip, try_finally, try_except.
  set (w0 := mkWorld (ticks w) (writes w) (fetches w) (trace w) false).
  assert (fst (record_clip_try env self fuel pre_event_frames w0) <> Running) as Htry.
  { unfold record_clip_try.
    apply (steady_then_settles 0); [apply writes_at_most_makedirs|]. intros _ w1 Ht1.
    destruct pre_event_frames as [|first rest]; [simpl; intros H; discriminate H|].
    apply (steady_then_settles 0); [apply writes_at_most_height_width|]. intros hw w2 Ht2.
    apply (steady_then_settles 0); [apply writes_at_most_open_writer|]. intros _ w3 Ht3.
    apply (steady_then_settles (length (first :: rest)));
      [apply writes_at_most_write_each|]. intros _ w4 Ht4.
    unfold bind at 1. unfold read_clock at 1.
    apply bind_settles.
    - apply (post_event_loop_settles env self _ k); [exact Hfuel|].
      simpl. rewrite Ht4, Ht3, Ht2, Ht1. exact Hstop.
    - intros _ w5 _. simpl. intros H. discriminate H. }
  destruct (record_clip_try env self fuel pre_event_frames w0) as [[[]|e|] w1];
    simpl in Htry.
  - unfold release_if_bound. destruct (writer_bound w1); simpl; intros H; discriminate H.
  - unfold release_if_bound. simpl. destruct (writer_bound w1); simpl; intros H; discriminate H.
  - now exfalso.
Qed.

Lemma record_clip_terminates_witness :
  exists w',
    record_clip slow_env sample_recorder 8 [sample_frame] fresh_world = (Returned tt, w').
Proof.
  apply (record_clip_terminates slow_env sample_recorder [sample_frame] fresh_world 7 8).
  - lia.
  - vm_compute. reflexivity.
Defined.

Lemma bind_count {A B} (n bound : nat) (m : M A) (k : A -> M B)
    (w w' : World) (r : outcome B) :
  writes_at_most n m ->
  bind m k w = (r, w') ->
  (forall a w1, ticks w1 = ticks w -> k a w1 = (r, w') ->
     (length (written (trace w')) <= length (written (trace w1)) + bound)%nat) ->
  (length (written (trace w')) <= length (written (trace w)) + (n + bound))%nat.
Proof.
  intros Hm H Hk. unfold bind in H.
  destruct (m w) as [[a|e|] w1] eqn:E; destruct (Hm _ _ _ E) as (Hr & Ht & Hl).
  - specialize (Hk a w1 Ht H). lia.
  - injection H as <- <-. lia.
  - now exfalso.
Qed.

Section RecorderBound.

Variable env : Env.
Variable self : EventClipRecorder.
Hypothesis rate_positive : (0 < fps self)%Q.

(** The loop writes at most [N] frames when every pass takes at least
    [1 / fps] on the clock and what is left of the post-event time at
    the first reading is at most [N / fps]. *)
Lemma post_event_loop_bounded (start_time : Q) (fuel : nat) :
  forall (N : nat) (w w' : World) (r : outcome unit),
    post_event_loop env self fuel start_time w = (r, w') ->
    (forall n, (ticks w <= n)%nat ->
       (env_time env n + 1 / fps self <= env_time env (S n))%Q) ->
    (post_event_seconds self - (env_time env (ticks w) - start_time)
     <= inject_Z (Z.of_nat N) * (1 / fps self))%Q ->
    (length (written (trace w')) <= length (written (trace w)) + N)%nat.
Proof.
  assert (0 < 1 / fps self)%Q as Hpause.
  { apply Qlt_shift_div_l; [exact rate_positive|]. rewrite Qmult_0_l. reflexivity. }
  induction fuel as [|fuel IH]; intros N w w' r Hrun Hpace Hleft.
  - injection Hrun as <- <-. lia.
  - rewrite post_event_loop_unfold in Hrun. cbv zeta in Hrun.
    destruct (Qlt_bool (env_time env (ticks w) - start_time) _) eqn:Hguard.
    2:{ injection Hrun as <- <-. simpl. lia. }
    apply Qlt_bool_iff in Hguard.
    destruct N as [|N].
    { exfalso. simpl in Hleft. rewrite Qmult_0_l in Hleft. lra. }
    destruct (post_event_pass_body env self _) as [[[]|e|] w1] eqn:Hpass;
      destruct (writes_at_most_pass env self _ _ _ Hpass) as (Hr & Ht & Hl);
      simpl in Ht, Hl.
    + assert (length (written (trace w')) <= length (written (trace w1)) + N)%nat; [|lia].
      apply (IH N w1 w' r Hrun).
      * intros n Hn. apply Hpace. lia.
      * rewrite Ht. specialize (Hpace (ticks w) (le_n _)).
        rewrite Nat2Z.inj_succ, <- Z.add_1_r, inject_Z_plus in Hleft.
        change (inject_Z 1) with 1%Q in Hleft.
        rewrite Qmult_plus_distr_l, Qmult_1_l in Hleft. lra.
    + injection Hrun as <- <-. lia.
    + now exfalso.
Qed.

End RecorderBound.

(** X15. The clip is never longer than the pre-event list plus
    [fps * post_event_seconds] frames, rounded up, when every pass of the
    loop takes its time: if the frame rate is positive, the clock does not
    go back between the start of the post-event phase and the first test
    of the loop, and every later reading is at least [1 / fps] (the exact
    quotient) after the one before, then a call of [record_clip], however
    it ends, has written at most
    [len(pre_event_frames) + ceil(fps * post_event_seconds)] frames;
    [fps] and [post_event_seconds] need not be whole numbers. *)
Theorem record_clip_length_bounded (env : Env) (self : EventClipRecorder)
    (fuel : nat) (pre_event_frames : list Frame) (w w' : World) (r : outcome unit) :
  (0 < fps self)%Q ->
  (env_time env (ticks w) <= env_time env (S (ticks w)))%Q ->
  (forall n, (S (ticks w) <= n)%nat ->
     (env_time env n + 1 / fps self <= env_time env (S n))%Q) ->
  record_clip env self fuel pre_event_frames w = (r, w') ->
  (length (written (trace w'))
   <= length (written (trace w)) + length pre_event_frames
      + Z.to_nat (Qceiling (fps self * post_event_seconds self)))%nat.
Proof.
  intros Hrate Hfirst Hpace Hrun.
  set (N := Z.to_nat (Qceiling (fps self * post_event_seconds self))).
  assert (0 <= 1 / fps self)%Q as Hpause.
  { apply Qle_shift_div_l; [exact Hrate|]. rewrite Qmult_0_l. discriminate. }
  assert (post_event_seconds self <= inject_Z (Z.of_nat N) * (1 / fps self))%Q as Hpost.
  { destruct (Qlt_le_dec (post_event_seconds self) 0) as [Hneg|Hnn].
    - apply Qle_trans with 0%Q; [now apply Qlt_le_weak|].
      apply Qmult_le_0_compat; [unfold Qle; simpl; lia|exact Hpause].
    - assert (0 <= fps self * post_event_seconds self)%Q as Hprod
        by (apply Qmult_le_0_compat; [now apply Qlt_le_weak|exact Hnn]).
      assert (0 <= Qceiling (fps self * post_event_seconds self))%Z as Hceil.
      { change 0%Z with (Qceiling 0). now apply Qceiling_resp_le. }
      unfold N. rewrite Z2Nat.id by exact Hceil.
      assert (post_event_seconds self
              == fps self * post_event_seconds self * (1 / fps self))%Q as Heq.
      { field. intros H0. rewrite H0 in Hrate. discriminate. }
      rewrite Heq at 1.
      apply Qmult_le_compat_r; [apply Qle_ceiling|exact Hpause]. }
  unfold record_clip, try_finally, try_except in Hrun.
  set (w0 := mkWorld (ticks w) (writes w) (fetches w) (trace w) false) in Hrun.
  destruct (record_clip_try env self fuel pre_event_frames w0) as [r1 w1] eqn:Htry.
  assert (length (written (trace w1))
          <= length (written (trace w0)) + (0 + (0 + (0 + (length pre_event_frames + N)))))%nat
    as Hbody.
  { unfold record_clip_try in Htry.
    apply (bind_count 0 _ _ _ _ _ _ (writes_at_most_makedirs env _) Htry).
    intros _ wa Hta Ha.
    destruct pre_event_frames as [|first rest].
    { injection Ha as _ <-. simpl. rewrite written_app. simpl. rewrite app_nil_r. lia. }
    apply (bind_count 0 _ _ _ _ _ _ (writes_at_most_height_width _) Ha).
    intros hw wb Htb Hb.
    apply (bind_count 0 _ _ _ _ _ _ (writes_at_most_open_writer env _ _ _ _ _) Hb).
    intros _ wc Htc Hc.
    apply (bind_count (length (first :: rest)) _ _ _ _ _ _
             (writes_at_most_write_each env _) Hc).
    intros _ wd Htd Hd.
    unfold bind at 1 in Hd. unfold read_clock at 1 in Hd.
    unfold bind in Hd.
    match type of Hd with
    | context [post_event_loop env self fuel ?st ?ws] =>
        destruct (post_event_loop env self fuel st ws) as [[[]|e|] we] eqn:Hloop;
        pose proof (post_event_loop_bounded env self Hrate st fuel N ws we _ Hloop) as Hb'
    end;
      simpl in Hb';
      rewrite Htd, Htc, Htb, Hta in Hb'; simpl in Hb';
      (assert (length (written (trace we)) <= length (written (trace wd)) + N)%nat as Hle;
       [apply Hb'; [exact Hpace|];
        generalize dependent (inject_Z (Z.of_nat N) * (1 / fps self))%Q;
        intros; lra|]).
    - injection Hd as _ <-. simpl. rewrite written_app. simpl. rewrite app_nil_r. lia.
    - injection Hd as _ <-. lia.
    - injection Hd as _ <-. lia. }
  simpl in Hbody.
  assert (length (written (trace w')) = length (written (trace w1))) as ->; [|lia].
  unfold release_if_bound in Hrun.
  destruct r1 as [[]|e|].
  - destruct (writer_bound w1); injection Hrun as _ <-; simpl;
      rewrite ?written_app; simpl; rewrite ?app_nil_r; reflexivity.
  - simpl in Hrun.
    destruct (writer_bound w1); injection Hrun as _ <-; simpl;
      rewrite ?written_app; simpl; rewrite ?written_app; simpl;
      rewrite ?app_nil_r; reflexivity.
  - injection Hrun as _ <-. reflexivity.
Qed.

Lemma record_clip_length_bounded_witness :
  (length (written (trace
     (record_clip steady_env fractional_recorder 5 [sample_frame] fresh_world).2))
   <= length (written (trace fresh_world)) + length [sample_frame]
      + Z.to_nat (Qceiling (fps fractional_recorder
                            * post_event_seconds fractional_recorder)))%nat.
Proof.
  apply (record_clip_length_bounded steady_env fractional_recorder 5 [sample_frame]
           fresh_world _
           (record_clip steady_env fractional_recorder 5 [sample_frame] fresh_world).1).
  - reflexivity.
  - vm_compute. discriminate.
  - intros [|m] Hm; [simpl in Hm; lia|].
    unfold steady_env, halves, fractional_recorder, new_recorder, Qle. simpl.
    rewrite Nat2Z.inj_succ. lia.
  - apply surjective_pairing.
Defined.

(** ** The capture loop *)

Lemma detect_total (self : AIDetector) (frame : Frame) :
  exists detected output_frame, detect self frame = inr (detected, output_frame).
Proof.
  unfold detect. destruct (detect_try self frame) as [e|[d f]]; eauto.
Qed.

Section CaptureProperties.

Variable time : nat -> Q.
Variable camera : nat -> capture.
Variable detector : AIDetector.

(** What the loop leaves as it is, and what it only extends. *)
Lemma run_loop_frame (fuel : nat) :
  forall self r self',
    run_loop time camera detector fuel self = (r, self') ->
    target_frame_interval self' = target_frame_interval self /\
    (polls self <= polls self')%nat /\
    (exists added, naps self' = naps self ++ added) /\
    (exists added,
       messages self' = messages self ++ added /\
       Forall (eq (WARNING, "Received an empty frame from the camera.")) added).
Proof.
  induction fuel as [|fuel IH]; intros self r self' H; simpl in H.
  - injection H as <- <-.
    repeat split; [lia|exists []|exists []; split; [|constructor]]; now rewrite app_nil_r.
  - destruct (camera (polls self)) as [frame| |msg|e] eqn:Hcam.
    + destruct (detect detector frame) as [e|[d fwb]].
      * injection H as <- <-. simpl.
        repeat split; [lia|eauto|exists []; split; [now rewrite app_nil_r|constructor]].
      * destruct (add_frame time _ fwb) as [h|].
        -- destruct (IH _ _ _ H) as (Hi & Hp & (a1 & Hn) & (a2 & Hm & Hw)). simpl in *.
           repeat split; [exact Hi|lia| |eauto].
           rewrite Hn, <- app_assoc. eauto.
        -- injection H as <- <-. simpl.
           repeat split; [lia|eauto|exists []; split; [now rewrite app_nil_r|constructor]].
    + destruct (IH _ _ _ H) as (Hi & Hp & (a1 & Hn) & (a2 & Hm & Hw)). simpl in *.
      repeat split; [exact Hi|lia| |].
      * rewrite Hn, <- app_assoc. eauto.
      * rewrite Hm, <- app_assoc. eexists. split; [reflexivity|].
        constructor; [reflexivity|exact Hw].
    + injection H as <- <-. simpl.
      repeat split; [lia|eauto|exists []; split; [now rewrite app_nil_r|constructor]].
    + injection H as <- <-. simpl.
      repeat split; [lia|eauto|exists []; split; [now rewrite app_nil_r|constructor]].
Qed.

(** One call of [_sync_frame_rate] whose sleep is honoured moves
    [last_frame_time] on by the target interval at least. *)
Lemma sync_frame_rate_paces (self : CaptureThread) :
  honoured time (clock (stream self),
                 Legacy.max0 (target_frame_interval self
                              - (time (clock (stream self)) - last_frame_time self))) ->
  (last_frame_time self + target_frame_interval self
   <= last_frame_time (sync_frame_rate time self))%Q.
Proof.
  unfold honoured, Legacy.max0. simpl.
  destruct (Qlt_bool 0 _) eqn:E; intros H.
  - lra.
  - apply Qlt_bool_false in E. lra.
Qed.

Lemma run_loop_paced (fuel : nat) :
  forall self r self' (m : nat),
    run_loop time camera detector fuel self = (r, self') ->
    Forall (honoured time) (naps self') ->
    polls self' = (polls self + m)%nat ->
    (last_frame_time self + inject_Z (Z.of_nat m) * target_frame_interval self
     <= last_frame_time self')%Q.
Proof.
  induction fuel as [|fuel IH]; intros self r self' m H Hnaps Hm.
  - simpl in H. injection H as <- <-. assert (m = 0)%nat as -> by lia.
    simpl. rewrite Qmult_0_l. lra.
  - pose proof H as Hframe. apply run_loop_frame in Hframe as (_ & _ & (added & Hadd) & _).
    pose proof (sync_frame_rate_paces self) as Hpace.
    simpl in H.
    assert (forall self2 m',
              naps self2 = naps (sync_frame_rate time self) ->
              (exists more, naps self' = naps self2 ++ more) ->
              last_frame_time self2 = last_frame_time (sync_frame_rate time self) ->
              target_frame_interval self2 = target_frame_interval self ->
              m = S m' ->
              (last_frame_time self2 + inject_Z (Z.of_nat m') * target_frame_interval self2
               <= last_frame_time self')%Q ->
              (last_frame_time self + inject_Z (Z.of_nat m) * target_frame_interval self
               <= last_frame_time self')%Q) as Hstep.
    { intros self2 m' Hn2 (more & Hmore) Hl2 Hi2 -> Hle.
      rewrite Hmore, Hn2 in Hnaps. simpl in Hnaps.
      apply Forall_app in Hnaps as [Hnaps _]. apply Forall_app in Hnaps as [_ Hnap].
      apply Forall_inv in Hnap. specialize (Hpace Hnap).
      rewrite Hl2, Hi2 in Hle.
      rewrite Nat2Z.inj_succ, <- Z.add_1_r, inject_Z_plus.
      change (inject_Z 1) with 1%Q. rewrite Qmult_plus_distr_l, Qmult_1_l. lra. }
    destruct (camera (polls self)) as [frame| |msg|e] eqn:Hcam.
    + destruct (detect detector frame) as [e|[d fwb]].
      * injection H as <- <-. simpl in Hm.
        eapply (Hstep _ 0%nat); try reflexivity; [exists []; now rewrite app_nil_r|lia|].
        simpl. rewrite Qmult_0_l. lra.
      * destruct (add_frame time _ fwb) as [h|].
        -- pose proof H as Hf. apply run_loop_frame in Hf as (_ & Hp & Hmore & _).
           simpl in Hp.
           eapply (Hstep _ (m - 1)%nat); [| exact Hmore | | |lia|];
             [reflexivity..|].
           apply (IH _ _ _ _ H Hnaps). simpl. lia.
        -- injection H as <- <-. simpl in Hm.
           eapply (Hstep _ 0%nat); try reflexivity; [exists []; now rewrite app_nil_r|lia|].
           simpl. rewrite Qmult_0_l. lra.
    + pose proof H as Hf. apply run_loop_frame in Hf as (_ & Hp & Hmore & _).
      simpl in Hp.
      eapply (Hstep _ (m - 1)%nat); [| exact Hmore | | |lia|];
        [reflexivity..|].
      apply (IH _ _ _ _ H Hnaps). simpl. lia.
    + injection H as <- <-. simpl in Hm.
      eapply (Hstep _ 0%nat); try reflexivity; [exists []; now rewrite app_nil_r|lia|].
      simpl. rewrite Qmult_0_l. lra.
    + injection H as <- <-. simpl in Hm.
      eapply (Hstep _ 0%nat); try reflexivity; [exists []; now rewrite app_nil_r|lia|].
      simpl. rewrite Qmult_0_l. lra.
Qed.

Lemma annotated_step (from n : nat) :
  annotated camera detector from (S n)
  = match camera from with
    | Captured frame =>
        match detect detector frame with
        | inr (_, frame_with_boxes) =>
            frame_with_boxes :: annotated camera detector (S from) n
        | inl _ => annotated camera detector (S from) n
        end
    | _ => annotated camera detector (S from) n
    end.
Proof.
  unfold annotated. simpl.
  destruct (camera from) as [frame| | |]; try reflexivity.
  destruct (detect detector frame) as [e|[d f]]; reflexivity.
Qed.

Lemma run_loop_buffer (fuel : nat) :
  forall self r self' (m : nat),
    run_loop time camera detector fuel self = (r, self') ->
    r <> inl Waiting ->
    polls self' = (polls self + m)%nat ->
    maxsize (stream self') = maxsize (stream self) /\
    (exists k,
       (k <= length (frame_buffer (stream self)
                     ++ annotated camera detector (polls self) m))%nat /\
       frame_buffer (stream self')
       = drop k (frame_buffer (stream self)
                 ++ annotated camera detector (polls self) m)) /\
    current_frame (stream self')
    = match last (annotated camera detector (polls self) m) with
      | Some frame => Some frame
      | None => current_frame (stream self)
      end.
Proof.
  induction fuel as [|fuel IH]; intros self r self' m H Hr Hm.
  - simpl in H. injection H as <- <-. assert (m = 0)%nat as -> by lia.
    simpl. split; [reflexivity|]. split; [|reflexivity].
    exists 0%nat. rewrite app_nil_r. split; [lia|reflexivity].
  - simpl in H.
    destruct (camera (polls self)) as [frame| |msg|e] eqn:Hcam.
    + destruct (detect detector frame) as [e|[d fwb]] eqn:Hdet.
      * injection H as <- <-. simpl in *. assert (m = 1)%nat as -> by lia.
        rewrite annotated_step, Hcam, Hdet. simpl.
        split; [reflexivity|]. split; [|reflexivity].
        exists 0%nat. rewrite app_nil_r. split; [lia|reflexivity].
      * destruct (add_frame time _ fwb) as [h|] eqn:Hadd.
        2:{ injection H as <- <-. now exfalso. }
        pose proof H as Hf. apply run_loop_frame in Hf as (_ & Hp & _). simpl in Hp.
        destruct m as [|m]; [lia|].
        destruct (IH _ _ _ m H Hr) as (Hmax & (k & Hk & Hbuf) & Hcur); [simpl; lia|].
        destruct (add_frame_inv _ _ _ _ Hadd)
          as (k1 & j & n & _ & Hk1 & Hb1 & Hmax1 & _ & _ & _ & _ & Hcur1 & _).
        simpl in *. rewrite annotated_step, Hcam, Hdet.
        split; [congruence|]. split.
        -- exists (k1 + k)%nat. rewrite Hbuf, Hb1.
           replace ((drop k1 (frame_buffer (stream self)) ++ [fwb])
                    ++ annotated camera detector (S (polls self)) m)
             with (drop k1 (frame_buffer (stream self)
                            ++ fwb :: annotated camera detector (S (polls self)) m)).
           2:{ rewrite drop_app_le by exact Hk1. rewrite <- app_assoc. reflexivity. }
           rewrite drop_drop. split; [|reflexivity].
           rewrite Hb1 in Hk. rewrite !length_app, ?length_drop in *. simpl in *. lia.
        -- rewrite Hcur, Hcur1. rewrite last_cons.
           destruct (last (annotated camera detector (S (polls self)) m)); reflexivity.
    + pose proof H as Hf. apply run_loop_frame in Hf as (_ & Hp & _). simpl in Hp.
      destruct m as [|m]; [lia|].
      destruct (IH _ _ _ m H Hr) as (Hmax & Hbuf & Hcur); [simpl; lia|].
      simpl in *. rewrite annotated_step, Hcam. auto.
    + injection H as <- <-. simpl in *. assert (m = 1)%nat as -> by lia.
      rewrite annotated_step, Hcam. simpl.
      split; [reflexivity|]. split; [|reflexivity].
      exists 0%nat. rewrite app_nil_r. split; [lia|reflexivity].
    + injection H as <- <-. simpl in *. assert (m = 1)%nat as -> by lia.
      rewrite annotated_step, Hcam. simpl.
      split; [reflexivity|]. split; [|reflexivity].
      exists 0%nat. rewrite app_nil_r. split; [lia|reflexivity].
Qed.

(** Short of an exception the loop does not end: it waits in
    [add_frame] or is still turning. *)
Lemma run_loop_still (fuel : nat) :
  forall self still self',
    run_loop time camera detector fuel self = (inl still, self') ->
    still = Waiting \/ still = Looping.
Proof.
  induction fuel as [|fuel IH]; intros self still self' H; simpl in H.
  - injection H as <- _. now right.
  - destruct (camera (polls self)) as [frame| |msg|e]; try discriminate.
    + destruct (detect detector frame) as [e|[d fwb]]; [discriminate|].
      destruct (add_frame time _ fwb); [eapply IH; exact H|].
      injection H as <- _. now left.
    + eapply IH; exact H.
Qed.

(** The loop is left by an exception only when the camera raised it, at
    the last call made; every call before delivered a frame or [None]. *)
Lemma run_loop_raises (fuel : nat) :
  forall self x self',
    run_loop time camera detector fuel self = (inr x, self') ->
    exists k,
      polls self' = S k /\ (polls self <= k)%nat /\
      camera k = match x with
                 | inl msg => CameraRuntimeError msg
                 | inr e => CameraRaises e
                 end /\
      forall i, (polls self <= i < k)%nat ->
        camera i = NoFrame \/ exists frame, camera i = Captured frame.
Proof.
  induction fuel as [|fuel IH]; intros self x self' H; simpl in H; [discriminate|].
  assert (forall self2,
            polls self2 = S (polls self) ->
            run_loop time camera detector fuel self2 = (inr x, self') ->
            (camera (polls self) = NoFrame
             \/ exists frame, camera (polls self) = Captured frame) ->
            exists k,
              polls self' = S k /\ (polls self <= k)%nat /\
              camera k = match x with
                         | inl msg => CameraRuntimeError msg
                         | inr e => CameraRaises e
                         end /\
              forall i, (polls self <= i < k)%nat ->
                camera i = NoFrame \/ exists frame, camera i = Captured frame) as Hstep.
  { intros self2 Hp2 H2 Hhere.
    destruct (IH _ _ _ H2) as (k & Hk & Hle & Hcam & Hbefore).
    exists k. rewrite Hp2 in *. repeat split; [exact Hk|lia|exact Hcam|].
    intros i Hi. destruct (decide (i = polls self)) as [->|Hne]; [exact Hhere|].
    apply Hbefore. lia. }
  destruct (camera (polls self)) as [frame| |msg|e] eqn:Hcam.
  - destruct (detect_total detector frame) as (d & fwb & Hdet). rewrite Hdet in H.
    destruct (add_frame time _ fwb) as [h|]; [|discriminate].
    eapply Hstep; [|exact H|]; [reflexivity|eauto].
  - eapply Hstep; [|exact H|]; [reflexivity|eauto].
  - injection H as <- <-. exists (polls self). simpl.
    repeat split; [lia|exact Hcam|]. intros i Hi. lia.
  - injection H as <- <-. exists (polls self). simpl.
    repeat split; [lia|exact Hcam|]. intros i Hi. lia.
Qed.

(** Once the camera has raised, the loop is over or waits in
    [add_frame]: it is not still turning. *)
Lemma run_loop_stops (fuel : nat) :
  forall self r self' (k : nat),
    run_loop time camera detector fuel self = (r, self') ->
    (polls self <= k < polls self + fuel)%nat ->
    (forall i, (polls self <= i < k)%nat ->
       camera i = NoFrame \/ exists frame, camera i = Captured frame) ->
    (exists msg, camera k = CameraRuntimeError msg) \/ (exists e, camera k = CameraRaises e) ->
    r = inl Waiting \/ (exists x, r = inr x) /\ polls self' = S k.
Proof.
  induction fuel as [|fuel IH]; intros self r self' k H Hk Hbefore Hraise; [lia|].
  simpl in H.
  destruct (decide (k = polls self)) as [->|Hne].
  - destruct Hraise as [[msg Hc]|[e Hc]]; rewrite Hc in H; injection H as <- <-;
      right; simpl; eauto.
  - destruct (Hbefore (polls self)) as [Hc|[frame Hc]]; [lia| |]; rewrite Hc in H.
    + apply (IH _ _ _ k H); simpl; [lia| |exact Hraise].
      intros i Hi. apply Hbefore. lia.
    + destruct (detect_total detector frame) as (d & fwb & Hdet). rewrite Hdet in H.
      destruct (add_frame time _ fwb) as [h|].
      * apply (IH _ _ _ k H); simpl; [lia| |exact Hraise].
        intros i Hi. apply Hbefore. lia.
      * injection H as <- <-. now left.
Qed.

End CaptureProperties.

(** X16. The capture thread polls the camera no faster than its target
    rate when its sleeps are honoured: whenever [run] stands after [m]
    calls of [camera.get_frame()], and each [time.sleep] it made lasted at
    least as long as asked, [last_frame_time] is at least
    [m * target_frame_interval] later than it was at the start. *)
Theorem capture_rate_limited (time : nat -> Q) (camera : nat -> capture)
    (detector : AIDetector) (fuel : nat) (self self' : CaptureThread) (r : run_end) :
  run time camera detector fuel self = (r, self') ->
  Forall (honoured time) (naps self') ->
  (last_frame_time self
   + inject_Z (Z.of_nat (polls self' - polls self)) * target_frame_interval self
   <= last_frame_time self')%Q.
Proof.
  unfold run. intros H Hnaps.
  destruct (run_loop time camera detector fuel _) as [x self1] eqn:Hloop.
  pose proof (run_loop_frame _ _ _ _ _ _ _ Hloop) as (_ & Hp & _). simpl in Hp.
  assert (polls self' = polls self1 /\ naps self' = naps self1
          /\ last_frame_time self' = last_frame_time self1) as (Hp' & Hn' & Hl').
  { destruct x as [still|[msg|e]]; injection H as _ <-; auto. }
  rewrite Hp', Hl'. rewrite Hn' in Hnaps.
  apply (run_loop_paced _ _ _ _ _ _ _ _ Hloop Hnaps). simpl. lia.
Qed.

Lemma capture_rate_limited_witness :
  (last_frame_time sample_thread
   + inject_Z (Z.of_nat
       (polls (run seconds sample_camera quiet_detector 5 sample_thread).2
        - polls sample_thread))
     * target_frame_interval sample_thread
   <= last_frame_time (run seconds sample_camera quiet_detector 5 sample_thread).2)%Q.
Proof.
  apply (capture_rate_limited seconds sample_camera quiet_detector 5 sample_thread _
           (run seconds sample_camera quiet_detector 5 sample_thread).1).
  - apply surjective_pairing.
  - vm_compute. repeat (constructor; [discriminate|]). constructor.
Defined.

(** X17. What the capture thread buffers is what the detector returned
    for the frames the camera delivered, in the camera's order: while
    [run] is not waiting in [add_frame], the frame buffer is a suffix of
    its content at the start followed by the detector's output for every
    frame delivered since; a [None] from the camera adds nothing; and the
    current frame is the detector's output for the last frame delivered,
    or what it was when none has been. *)
Theorem capture_buffers_annotated_frames (time : nat -> Q) (camera : nat -> capture)
    (detector : AIDetector) (fuel : nat) (self self' : CaptureThread) (r : run_end) :
  run time camera detector fuel self = (r, self') ->
  r <> Waiting ->
  let delivered := annotated camera detector (polls self) (polls self' - polls self) in
  (exists k,
     (k <= length (frame_buffer (stream self) ++ delivered))%nat /\
     frame_buffer (stream self') = drop k (frame_buffer (stream self) ++ delivered)) /\
  get_current_frame (stream self')
  = match last delivered with
    | Some frame => Some frame
    | None => get_current_frame (stream self)
    end.
Proof.
  unfold run. intros H Hr.
  destruct (run_loop time camera detector fuel _) as [x self1] eqn:Hloop.
  pose proof (run_loop_frame _ _ _ _ _ _ _ Hloop) as (_ & Hp & _). simpl in Hp.
  assert (polls self' = polls self1 /\ stream self' = stream self1) as (Hp' & Hs').
  { destruct x as [still|[msg|e]]; injection H as _ <-; auto. }
  assert (x <> inl Waiting) as Hx.
  { intros ->. injection H as <- _. now apply Hr. }
  rewrite Hp', Hs'.
  destruct (run_loop_buffer _ _ _ _ _ _ _ (polls self1 - polls self) Hloop Hx)
    as (_ & Hbuf & Hcur); [simpl; lia|].
  simpl in Hbuf, Hcur. split; [exact Hbuf|exact Hcur].
Qed.

Lemma capture_buffers_annotated_frames_witness :
  let self' := (run seconds sample_camera quiet_detector 5 sample_thread).2 in
  let delivered :=
    annotated sample_camera quiet_detector (polls sample_thread)
              (polls self' - polls sample_thread) in
  (exists k,
     (k <= length (frame_buffer (stream sample_thread) ++ delivered))%nat /\
     frame_buffer (stream self') = drop k (frame_buffer (stream sample_thread) ++ delivered)) /\
  get_current_frame (stream self')
  = match last delivered with
    | Some frame => Some frame
    | None => get_current_frame (stream sample_thread)
    end.
Proof.
  apply (capture_buffers_annotated_frames seconds sample_camera quiet_detector 5
           sample_thread _ (run seconds sample_camera quiet_detector 5 sample_thread).1).
  - apply surjective_pairing.
  - vm_compute. discriminate.
Defined.

(** X18. [run] ends only through an exception of the camera.  When it is
    over, the last call of [camera.get_frame()] raised, and every call
    before delivered a frame or [None].  If that exception was a
    [RuntimeError], [run] has returned and its last two messages are the
    camera error and the stop message; if it was of another class, it
    has left [run], and the stop message was still logged last.  Between
    the start message and these there are only warnings about empty
    frames. *)
Theorem run_ends_on_camera_exception (time : nat -> Q) (camera : nat -> capture)
    (detector : AIDetector) (fuel : nat) (self self' : CaptureThread) (r : run_end) :
  run time camera detector fuel self = (r, self') ->
  r <> Waiting -> r <> Looping ->
  exists k warnings,
    polls self' = S k /\ (polls self <= k)%nat /\
    (forall i, (polls self <= i < k)%nat ->
       camera i = NoFrame \/ exists frame, camera i = Captured frame) /\
    Forall (eq (WARNING, "Received an empty frame from the camera.")) warnings /\
    ((exists msg,
        camera k = CameraRuntimeError msg /\ r = Finished /\
        messages self'
        = messages self ++ [(INFO, "Video stream handler started.")] ++ warnings
          ++ [(ERROR, ("Camera error: " ++ msg)%string);
              (INFO, "Video stream handler stopped.")]) \/
     (exists e,
        camera k = CameraRaises e /\ r = Escaped e /\
        messages self'
        = messages self ++ [(INFO, "Video stream handler started.")] ++ warnings
          ++ [(INFO, "Video stream handler stopped.")])).
Proof.
  unfold run. intros H Hw Hl.
  destruct (run_loop time camera detector fuel _) as [x self1] eqn:Hloop.
  pose proof (run_loop_frame _ _ _ _ _ _ _ Hloop) as (_ & _ & _ & (warnings & Hmsg & Hwarn)).
  simpl in Hmsg.
  destruct x as [still|x].
  { injection H as <- <-.
    destruct (run_loop_still _ _ _ _ _ _ _ Hloop) as [->| ->]; now exfalso. }
  destruct (run_loop_raises _ _ _ _ _ _ _ Hloop) as (k & Hk & Hle & Hcam & Hbefore).
  simpl in Hle, Hbefore.
  exists k, warnings.
  destruct x as [msg|e]; injection H as <- <-; simpl;
    (repeat split; [exact Hk|exact Hle|exact Hbefore|exact Hwarn|]).
  - left. exists msg. repeat split; [exact Hcam|].
    rewrite Hmsg, <- !app_assoc. reflexivity.
  - right. exists e. repeat split; [exact Hcam|].
    rewrite Hmsg, <- !app_assoc. reflexivity.
Qed.

Lemma run_ends_on_camera_exception_witness :
  exists k warnings,
    polls (run seconds sample_camera quiet_detector 5 sample_thread).2 = S k /\
    (polls sample_thread <= k)%nat /\
    (forall i, (polls sample_thread <= i < k)%nat ->
       sample_camera i = NoFrame \/ exists frame, sample_camera i = Captured frame) /\
    Forall (eq (WARNING, "Received an empty frame from the camera.")) warnings /\
    ((exists msg,
        sample_camera k = CameraRuntimeError msg /\
        (run seconds sample_camera quiet_detector 5 sample_thread).1 = Finished /\
        messages (run seconds sample_camera quiet_detector 5 sample_thread).2
        = messages sample_thread ++ [(INFO, "Video stream handler started.")] ++ warnings
          ++ [(ERROR, ("Camera error: " ++ msg)%string);
              (INFO, "Video stream handler stopped.")]) \/
     (exists e,
        sample_camera k = CameraRaises e /\
        (run seconds sample_camera quiet_detector 5 sample_thread).1 = Escaped e /\
        messages (run seconds sample_camera quiet_detector 5 sample_thread).2
        = messages sample_thread ++ [(INFO, "Video stream handler started.")] ++ warnings
          ++ [(INFO, "Video stream handler stopped.")])).
Proof.
  apply (run_ends_on_camera_exception seconds sample_camera quiet_detector 5
           sample_thread _ (run seconds sample_camera quiet_detector 5 sample_thread).1).
  - apply surjective_pairing.
  - vm_compute. discriminate.
  - vm_compute. discriminate.
Defined.

(** X19. An exception of the camera stops the capture thread: if the
    [k]-th call of [camera.get_frame()] is the first that raises, then
    [run], given the time for more than [k] iterations, is over after
    exactly that call, unless it waits for ever in [add_frame]; it has
    returned when the exception is a [RuntimeError] and has let the
    exception out otherwise. *)
Theorem camera_exception_stops_capture (time : nat -> Q) (camera : nat -> capture)
    (detector : AIDetector) (fuel k : nat) (self self' : CaptureThread) (r : run_end) :
  run time camera detector fuel self = (r, self') ->
  (polls self <= k < polls self + fuel)%nat ->
  (forall i, (polls self <= i < k)%nat ->
     camera i = NoFrame \/ exists frame, camera i = Captured frame) ->
  (exists msg, camera k = CameraRuntimeError msg) \/ (exists e, camera k = CameraRaises e) ->
  r = Waiting \/
  polls self' = S k /\
  match camera k with
  | CameraRuntimeError _ => r = Finished
  | CameraRaises e => r = Escaped e
  | _ => False
  end.
Proof.
  unfold run. intros H Hk Hbefore Hraise.
  destruct (run_loop time camera detector fuel _) as [x self1] eqn:Hloop.
  destruct (run_loop_stops _ _ _ _ _ _ _ k Hloop Hk Hbefore Hraise)
    as [->|[[y ->] Hp]].
  - injection H as <- _. now left.
  - right. destruct (run_loop_raises _ _ _ _ _ _ _ Hloop) as (k' & Hk' & _ & Hcam & _).
    assert (k' = k) as -> by lia. rewrite Hcam.
    destruct y as [msg|e]; injection H as <- <-; simpl; auto.
Qed.

Lemma camera_exception_stops_capture_witness :
  (run seconds sample_camera quiet_detector 5 sample_thread).1 = Waiting \/
  polls (run seconds sample_camera quiet_detector 5 sample_thread).2 = 4%nat /\
  match sample_camera 3 with
  | CameraRuntimeError _ =>
      (run seconds sample_camera quiet_detector 5 sample_thread).1 = Finished
  | CameraRaises e =>
      (run seconds sample_camera quiet_detector 5 sample_thread).1 = Escaped e
  | _ => False
  end.
Proof.
  apply (camera_exception_stops_capture seconds sample_camera quiet_detector 5 3
           sample_thread _ (run seconds sample_camera quiet_detector 5 sample_thread).1).
  - apply surjective_pairing.
  - simpl. lia.
  - intros i Hi. simpl in Hi.
    destruct i as [|[|[|i]]]; simpl; [eauto..|lia].
  - left. simpl. eauto.
Defined.
